(** * FEN change detection and stabilisation: a shallow embedding

    The development follows [src/mainListener.js] (the position reader
    [getFEN], the field normaliser [splitFen], the change stabiliser
    [stableEmit] / [onAnyChange], the emission sink [dispatch] and the
    WebSocket message listener) and [src/chess_engine_setup.js]
    ([completeFen], [calculateMove], [handleGameEnd], the listener of
    [interceptWebSocket] and the handler of [setupChessEngineOnMessage]).

    Conventions of the embedding:
    - a JavaScript string is a Rocq [string]; its characters are the code
      units U+0000..U+00FF, so the white space of [\s] and of [trim] that
      can occur is TAB, LF, VT, FF, CR, SPACE and NBSP;
    - [performance.now()] is an integer number of time units;
    - timers are a list of live entries, each with the identifier that
      [setTimeout] returned, its delay and the closure it will run;
    - the three strategies of the source watcher (widget events, mutation
      records, polling) all call [onAnyChange] and appear as one kind of
      event; console output is left out. *)

From Stdlib Require Import String Ascii List ZArith Lia Bool.
From Stdlib Require Import Numbers.DecimalString.
Import ListNotations.

Local Open Scope string_scope.
Local Open Scope list_scope.

(** ** JavaScript values *)

Module Js.

(** The values the two scripts handle.  Numbers are the integers (status
    codes, ply counters and the time limit are integers); an object is
    known by its reference only. *)
Inductive value : Type :=
| Undefined
| Null
| Bool (b : bool)
| Num (z : Z)
| Str (s : string)
| Obj (ref : nat).

Definition value_eq_dec (a b : value) : {a = b} + {a <> b}.
Proof.
  decide equality;
    [ apply Bool.bool_dec | apply Z.eq_dec | apply string_dec
    | apply Nat.eq_dec ].
Defined.

(** [a === b] *)
Definition strict_eq (a b : value) : bool :=
  if value_eq_dec a b then true else false.

(** ToBoolean *)
Definition truthy (v : value) : bool :=
  match v with
  | Undefined | Null => false
  | Bool b => b
  | Num z => negb (Z.eqb z 0)
  | Str s => negb (String.eqb s "")
  | Obj _ => true
  end.

(** [a || b] *)
Definition or (a b : value) : value := if truthy a then a else b.

(** [typeof v === 'string'] *)
Definition is_string (v : value) : bool :=
  match v with Str _ => true | _ => false end.

(** Template-literal / concatenation view of a string value. *)
Definition to_string (v : value) : string :=
  match v with
  | Str s => s
  | Undefined => "undefined"
  | Null => "null"
  | Bool true => "true"
  | Bool false => "false"
  | Num z => NilZero.string_of_int (Z.to_int z)
  | Obj _ => "[object Object]"
  end.

(** [\s] on the code units below 256. *)
Definition is_space (c : ascii) : bool :=
  let n := nat_of_ascii c in
  (Nat.eqb n 9 || Nat.eqb n 10 || Nat.eqb n 11 || Nat.eqb n 12
   || Nat.eqb n 13 || Nat.eqb n 32 || Nat.eqb n 160)%bool.

Fixpoint trim_start (s : string) : string :=
  match s with
  | EmptyString => EmptyString
  | String c r => if is_space c then trim_start r else s
  end.

Fixpoint trim_end (s : string) : string :=
  match s with
  | EmptyString => EmptyString
  | String c r =>
      match trim_end r with
      | EmptyString => if is_space c then EmptyString else String c EmptyString
      | r' => String c r'
      end
  end.

(** [s.trim()] *)
Definition trim (s : string) : string := trim_end (trim_start s).

(** [s.split(/\s+/)].  The scan keeps the token under construction in
    [cur]; [in_sep] tells that the previous character belonged to the
    separator being matched.  A separator closes the current token (the
    empty one when the string starts with white space), and the tail
    after the last separator is always pushed (the empty one when the
    string ends with white space, and [[""]] for the empty string). *)
Fixpoint split_from (cur : string) (in_sep : bool) (s : string) : list string :=
  match s with
  | EmptyString => [cur]
  | String c r =>
      if is_space c then
        if in_sep then split_from EmptyString true r
        else cur :: split_from EmptyString true r
      else split_from (cur ++ String c EmptyString)%string false r
  end.

Definition split_ws (s : string) : list string := split_from EmptyString false s.

(** [s.includes(t)] *)
Fixpoint includes (t s : string) : bool :=
  if String.prefix t s then true
  else match s with
       | EmptyString => false
       | String _ r => includes t r
       end.

(** [parts[i]] *)
Definition index (parts : list string) (i : nat) : value :=
  match nth_error parts i with
  | Some s => Str s
  | None => Undefined
  end.

(** [while (parts.length < n) parts.push(x)], with the number of
    iterations left as the structural argument. *)
Fixpoint push_n (k : nat) (parts : list string) (x : string) : list string :=
  match k with
  | O => parts
  | S k' => push_n k' (parts ++ [x]) x
  end.

Definition pad_to (n : nat) (parts : list string) (x : string) : list string :=
  push_n (n - List.length parts) parts x.

End Js.

(** ** [src/chess_engine_setup.js] *)

Module Engine.

(** The module-level variables, in the order of their declaration. *)
Record globals : Type := mkGlobals {
  chessEngine : Js.value;
  webSocketWrapper : Js.value;
  currentFen : Js.value;
  bestMove : Js.value;
  gameId : Js.value;
  isWhite : Js.value;
  timeLimitMs : Z;
  autoMoveEnabled : bool
}.

(** The values of the [let] declarations at load time. *)
Definition initial : globals :=
  {| chessEngine := Js.Null; webSocketWrapper := Js.Null;
     currentFen := Js.Null; bestMove := Js.Null; gameId := Js.Null;
     isWhite := Js.Null; timeLimitMs := 1000; autoMoveEnabled := false |}.

(** [completeFen(partialFen)] *)
Definition completeFen (partialFen : Js.value) : Js.value :=
  if (negb (Js.truthy partialFen) || negb (Js.is_string partialFen))%bool
  then Js.Null
  else
    match partialFen with
    | Js.Str s =>
        let parts := Js.split_ws (Js.trim s) in
        let pieces := Js.or (Js.index parts 0) (Js.Str "") in
        let turn := Js.or (Js.index parts 1) (Js.Str "w") in
        let castling := Js.or (Js.index parts 2) (Js.Str "KQkq") in
        let enPassant := Js.or (Js.index parts 3) (Js.Str "-") in
        let halfmove := Js.or (Js.index parts 4) (Js.Str "0") in
        let fullmove := Js.or (Js.index parts 5) (Js.Str "1") in
        Js.Str (Js.to_string pieces ++ " " ++ Js.to_string turn ++ " "
                ++ Js.to_string castling ++ " " ++ Js.to_string enPassant
                ++ " " ++ Js.to_string halfmove ++ " "
                ++ Js.to_string fullmove)%string
    | _ => Js.Null
    end.

(** [calculateMove()]: the messages posted to the engine, in order.  The
    module variables are only read. *)
Definition calculateMove (g : globals) : list string :=
  if negb (autoMoveEnabled g) then []
  else if (negb (Js.truthy (chessEngine g)) || negb (Js.truthy (currentFen g)))%bool
  then []
  else [ ("position fen " ++ Js.to_string (currentFen g))%string;
         ("go depth 4 movetime " ++ Js.to_string (Js.Num (timeLimitMs g)))%string ].

(** [handleGameEnd()] *)
Definition handleGameEnd (g : globals) : globals :=
  {| chessEngine := chessEngine g;
     webSocketWrapper := webSocketWrapper g;
     currentFen := Js.Null;
     bestMove := Js.Null;
     gameId := Js.Null;
     isWhite := Js.Null;
     timeLimitMs := timeLimitMs g;
     autoMoveEnabled := autoMoveEnabled g |}.

(** [enableAutoMove()] and [disableAutoMove()] *)
Definition set_autoMoveEnabled (b : bool) (g : globals) : globals :=
  {| chessEngine := chessEngine g; webSocketWrapper := webSocketWrapper g;
     currentFen := currentFen g; bestMove := bestMove g; gameId := gameId g;
     isWhite := isWhite g; timeLimitMs := timeLimitMs g;
     autoMoveEnabled := b |}.

Definition set_currentFen (v : Js.value) (g : globals) : globals :=
  {| chessEngine := chessEngine g; webSocketWrapper := webSocketWrapper g;
     currentFen := v; bestMove := bestMove g; gameId := gameId g;
     isWhite := isWhite g; timeLimitMs := timeLimitMs g;
     autoMoveEnabled := autoMoveEnabled g |}.

Definition set_gameId (v : Js.value) (g : globals) : globals :=
  {| chessEngine := chessEngine g; webSocketWrapper := webSocketWrapper g;
     currentFen := currentFen g; bestMove := bestMove g; gameId := v;
     isWhite := isWhite g; timeLimitMs := timeLimitMs g;
     autoMoveEnabled := autoMoveEnabled g |}.

Definition set_isWhite (v : Js.value) (g : globals) : globals :=
  {| chessEngine := chessEngine g; webSocketWrapper := webSocketWrapper g;
     currentFen := currentFen g; bestMove := bestMove g; gameId := gameId g;
     isWhite := v; timeLimitMs := timeLimitMs g;
     autoMoveEnabled := autoMoveEnabled g |}.

Definition enableAutoMove : globals -> globals := set_autoMoveEnabled true.
Definition disableAutoMove : globals -> globals := set_autoMoveEnabled false.

End Engine.

(** ** [src/mainListener.js] *)

Module Listener.

Definition STABLE_DELAY_MS : Z := 220.
Definition CONFIRM_DELAY_MS : Z := 120.
Definition MAX_WAIT_MS : Z := 1500.

(** *** Position reader *)

(** What [document.querySelector(SELECTOR)?.game?.getFEN?.()] meets. *)
Inductive source : Type :=
| NoElement                      (* no board element in the document *)
| NoGame                         (* the element has no [game] *)
| NoAccessor                     (* [game.getFEN] is null or undefined *)
| AccessorThrows                 (* the call raises *)
| AccessorReturns (v : Js.value).

Inductive outcome (A : Type) : Type :=
| Ret (a : A)
| Throw.
Arguments Ret {A} a.
Arguments Throw {A}.

(** The body of the [try] block, up to the value of [fen]. *)
Definition read_source (src : source) : outcome Js.value :=
  match src with
  | NoElement | NoGame | NoAccessor => Ret Js.Undefined
  | AccessorThrows => Throw
  | AccessorReturns v => Ret v
  end.

(** [getFEN()]: [None] is [null]. *)
Definition getFEN (src : source) : option string :=
  match read_source src with
  | Ret (Js.Str fen) => Some (Js.trim fen)
  | Ret _ => None
  | Throw => None
  end.

(** *** Field normaliser *)

Record fields : Type := mkFields {
  placement : Js.value;
  active : Js.value;
  castling : Js.value;
  ep : Js.value;
  half : Js.value;
  full : Js.value;
  raw : string
}.

(** [splitFen(fen)]: [None] is [null], on both sides. *)
Definition splitFen (fen : option string) : option fields :=
  match fen with
  | None => None
  | Some fen =>
      if negb (Js.truthy (Js.Str fen)) then None
      else
        let parts := Js.pad_to 6 (Js.split_ws fen) "-" in
        Some {| placement := Js.index parts 0;
                active := Js.or (Js.index parts 1) (Js.Str "?");
                castling := Js.or (Js.index parts 2) (Js.Str "-");
                ep := Js.or (Js.index parts 3) (Js.Str "-");
                half := Js.or (Js.index parts 4) (Js.Str "0");
                full := Js.or (Js.index parts 5) (Js.Str "1");
                raw := fen |}
  end.

(** *** Stabiliser state *)

(** The closures handed to [setTimeout]: [attempt], which captured
    [start], and the confirm callback, which captured [start] and [f1]. *)
Inductive callback : Type :=
| Attempt (start : Z)
| Confirm (start : Z) (f1 : fields).

Record timer : Type := mkTimer {
  tid : nat;
  delay : Z;
  cb : callback
}.

(** The variables of the closure, the live timers of the page, the next
    identifier [setTimeout] hands out, the identifiers passed to
    [clearTimeout] so far and the [FENPush] events dispatched so far
    (their [detail]), oldest first. *)
Record state : Type := mkState {
  lastSentPlacement : Js.value;
  lastSentActive : Js.value;
  settleTimer : option nat;
  confirmTimer : option nat;
  pending : bool;
  timers : list timer;
  next_id : nat;
  cleared : list nat;
  events : list string
}.

Definition set_lastSent (p a : Js.value) (st : state) : state :=
  {| lastSentPlacement := p; lastSentActive := a;
     settleTimer := settleTimer st; confirmTimer := confirmTimer st;
     pending := pending st; timers := timers st; next_id := next_id st;
     cleared := cleared st; events := events st |}.

Definition set_settleTimer (h : option nat) (st : state) : state :=
  {| lastSentPlacement := lastSentPlacement st;
     lastSentActive := lastSentActive st;
     settleTimer := h; confirmTimer := confirmTimer st;
     pending := pending st; timers := timers st; next_id := next_id st;
     cleared := cleared st; events := events st |}.

Definition set_confirmTimer (h : option nat) (st : state) : state :=
  {| lastSentPlacement := lastSentPlacement st;
     lastSentActive := lastSentActive st;
     settleTimer := settleTimer st; confirmTimer := h;
     pending := pending st; timers := timers st; next_id := next_id st;
     cleared := cleared st; events := events st |}.

Definition set_pending (b : bool) (st : state) : state :=
  {| lastSentPlacement := lastSentPlacement st;
     lastSentActive := lastSentActive st;
     settleTimer := settleTimer st; confirmTimer := confirmTimer st;
     pending := b; timers := timers st; next_id := next_id st;
     cleared := cleared st; events := events st |}.

Definition set_timers (ts : list timer) (st : state) : state :=
  {| lastSentPlacement := lastSentPlacement st;
     lastSentActive := lastSentActive st;
     settleTimer := settleTimer st; confirmTimer := confirmTimer st;
     pending := pending st; timers := ts; next_id := next_id st;
     cleared := cleared st; events := events st |}.

(** [setTimeout(cb, delay)]: a fresh identifier and the state with the
    timer live. *)
Definition setTimeout (c : callback) (d : Z) (st : state) : nat * state :=
  (next_id st,
   {| lastSentPlacement := lastSentPlacement st;
      lastSentActive := lastSentActive st;
      settleTimer := settleTimer st; confirmTimer := confirmTimer st;
      pending := pending st;
      timers := timers st ++ [ {| tid := next_id st; delay := d; cb := c |} ];
      next_id := S (next_id st);
      cleared := cleared st; events := events st |}).

(** [clearTimeout(id)] *)
Definition clearTimeout (id : nat) (st : state) : state :=
  {| lastSentPlacement := lastSentPlacement st;
     lastSentActive := lastSentActive st;
     settleTimer := settleTimer st; confirmTimer := confirmTimer st;
     pending := pending st;
     timers := filter (fun tm => negb (Nat.eqb (tid tm) id)) (timers st);
     next_id := next_id st;
     cleared := cleared st ++ [id]; events := events st |}.

(** *** Emission sink *)

(** [dispatch(fen)] *)
Definition dispatch (fen : string) (st : state) : state :=
  if negb (Js.truthy (Js.Str fen)) then st
  else
    {| lastSentPlacement := lastSentPlacement st;
       lastSentActive := lastSentActive st;
       settleTimer := settleTimer st; confirmTimer := confirmTimer st;
       pending := pending st; timers := timers st; next_id := next_id st;
       cleared := cleared st; events := events st ++ [fen] |}.

(** *** Change stabiliser *)

(** A timer variable is truthy when it holds a non-zero identifier. *)
Definition handle_set (h : option nat) : option nat :=
  match h with
  | Some id => if Nat.eqb id 0 then None else Some id
  | None => None
  end.

(** [clearTimers()] *)
Definition clearTimers (st : state) : state :=
  let st1 :=
    match handle_set (settleTimer st) with
    | Some id => set_settleTimer None (clearTimeout id st)
    | None => st
    end in
  match handle_set (confirmTimer st1) with
  | Some id => set_confirmTimer None (clearTimeout id st1)
  | None => st1
  end.

(** The callback of [confirmTimer]; [now] is what [performance.now()]
    returns when it runs and [src] what the page holds then. *)
Definition confirm (start : Z) (f1 : fields) (now : Z) (src : source)
    (st : state) : state :=
  match splitFen (getFEN src) with
  | None => set_pending false st
  | Some f2 =>
      let unchanged :=
        (Js.strict_eq (placement f2) (placement f1)
         && Js.strict_eq (active f2) (active f1))%bool in
      let isNewPosition :=
        (negb (Js.strict_eq (placement f2) (lastSentPlacement st))
         || negb (Js.strict_eq (active f2) (lastSentActive st)))%bool in
      if (isNewPosition && unchanged)%bool then
        set_pending false
          (dispatch (raw f2) (set_lastSent (placement f2) (active f2) st))
      else if (now - start <? MAX_WAIT_MS)%Z then
        let '(id, st1) := setTimeout (Attempt start) STABLE_DELAY_MS st in
        set_settleTimer (Some id) st1
      else set_pending false st
  end.

(** [attempt()], the callback of [settleTimer]. *)
Definition attempt (start : Z) (src : source) (st : state) : state :=
  match splitFen (getFEN src) with
  | None => set_pending false st
  | Some f1 =>
      let '(id, st1) := setTimeout (Confirm start f1) CONFIRM_DELAY_MS st in
      set_confirmTimer (Some id) st1
  end.

(** [stableEmit()], called when [performance.now()] is [now]. *)
Definition stableEmit (now : Z) (st : state) : state :=
  let st1 := set_pending true st in
  let start := now in
  let '(id, st2) := setTimeout (Attempt start) STABLE_DELAY_MS st1 in
  set_settleTimer (Some id) st2.

(** [onAnyChange()] *)
Definition onAnyChange (now : Z) (st : state) : state :=
  if pending st then st else stableEmit now st.

(** The closure variables as declared. *)
Definition init : state :=
  {| lastSentPlacement := Js.Null; lastSentActive := Js.Null;
     settleTimer := None; confirmTimer := None; pending := false;
     timers := []; next_id := 1; cleared := []; events := [] |}.

(** The first read, at load time. *)
Definition startup (src : source) : state :=
  match splitFen (getFEN src) with
  | Some fi =>
      dispatch (raw fi) (set_lastSent (placement fi) (active fi) init)
  | None => init
  end.

(** What can happen to the stabiliser afterwards: a change notification
    (widget event, mutation record or poll tick), a live timer coming
    due, or the holder of [window.__FEN_LISTENER__] calling
    [clearTimers]. *)
Inductive event : Type :=
| Notify (now : Z)
| Fire (id : nat) (now : Z) (src : source)
| Teardown.

Definition run_callback (c : callback) (now : Z) (src : source)
    (st : state) : state :=
  match c with
  | Attempt start => attempt start src st
  | Confirm start f1 => confirm start f1 now src st
  end.

Definition step (ev : event) (st : state) : state :=
  match ev with
  | Notify now => onAnyChange now st
  | Fire id now src =>
      match find (fun tm => Nat.eqb (tid tm) id) (timers st) with
      | None => st
      | Some tm =>
          run_callback (cb tm) now src
            (set_timers
               (filter (fun tm => negb (Nat.eqb (tid tm) id)) (timers st)) st)
      end
  | Teardown => clearTimers st
  end.

Definition run (evs : list event) (st : state) : state :=
  fold_left (fun s ev => step ev s) evs st.

Definition reachable (st : state) : Prop :=
  exists src evs, st = run evs (startup src).

(** *** WebSocket message listener *)

(** The parsed message, as far as the listener looks into it.  [msg_d]
    is [None] when [msg.d] is falsy, [d_player] when [msg.d.player] is;
    a status and a ply are integers when present. *)
Record player : Type := mkPlayer { color : Js.value }.

Record payload : Type := mkPayload {
  d_id : Js.value;
  d_player : option player;
  d_status : option Z;
  d_fen : Js.value;
  d_ply : option Z
}.

Record message : Type := mkMessage {
  msg_t : Js.value;
  msg_type : Js.value;
  msg_id : Js.value;
  msg_status : option Z;
  msg_d : option payload
}.

(** ToBoolean of a status *)
Definition status_truthy (s : option Z) : bool :=
  match s with
  | Some n => negb (Z.eqb n 0)
  | None => false
  end.

(** [msg.status || (msg.d && msg.d.status)] *)
Definition message_status (msg : message) : option Z :=
  if status_truthy (msg_status msg) then msg_status msg
  else match msg_d msg with
       | Some p => d_status p
       | None => None
       end.

(** [status && status >= 30] *)
Definition game_over (s : option Z) : bool :=
  match s with
  | Some n => (negb (Z.eqb n 0) && (30 <=? n)%Z)%bool
  | None => false
  end.

(** [msg.d.ply % 2 === 0]; a missing ply gives [NaN]. *)
Definition isWhitesTurn (ply : option Z) : bool :=
  match ply with
  | Some n => Z.eqb (Z.rem n 2) 0
  | None => false
  end.

(** The string handed to [dispatch] for [msg.d.fen] and [msg.d.ply]. *)
Definition pushed_fen (fen : string) (ply : option Z) : string :=
  if (negb (Js.includes " w " fen) && negb (Js.includes " b " fen))%bool
  then (fen ++ (if isWhitesTurn ply then " w" else " b"))%string
  else fen.

Definition is_kind (msg : message) (k : string) : bool :=
  (Js.strict_eq (msg_t msg) (Js.Str k)
   || Js.strict_eq (msg_type msg) (Js.Str k))%bool.

(** The [gameFull] branch on the engine's variables. *)
Definition on_gameFull (msg : message) (g : Engine.globals) : Engine.globals :=
  let g1 :=
    if Js.truthy (msg_id msg) then Engine.set_gameId (msg_id msg) g
    else match msg_d msg with
         | Some p =>
             if Js.truthy (d_id p) then Engine.set_gameId (d_id p) g else g
         | None => g
         end in
  match msg_d msg with
  | Some p =>
      match d_player p with
      | Some pl =>
          if Js.truthy (color pl)
          then Engine.set_isWhite
                 (Js.Bool (Js.strict_eq (color pl) (Js.Str "white"))) g1
          else g1
      | None => g1
      end
  | None => g1
  end.

(** The listener installed on every socket.  [data] is [None] when
    [JSON.parse(event.data)] raises or does not give an object; [eng] is
    [None] when the engine script is not loaded, so that each of its
    [typeof] tests fails.  The result holds the engine's variables, the
    stabiliser state with the dispatched events, and the messages posted
    to the engine. *)
Definition onMessage (data : option message) (eng : option Engine.globals)
    (st : state) : option Engine.globals * state * list string :=
  match data with
  | None => (eng, st, [])
  | Some msg =>
      let eng1 :=
        if is_kind msg "gameFull" then option_map (on_gameFull msg) eng
        else eng in
      if (is_kind msg "gameState" && game_over (message_status msg))%bool
      then (option_map Engine.handleGameEnd eng1, st, [])
      else if (Js.strict_eq (msg_t msg) (Js.Str "d")
               || Js.strict_eq (msg_t msg) (Js.Str "move"))%bool
      then
        match msg_d msg with
        | Some p =>
            match d_fen p with
            | Js.Str fen =>
                let white := isWhitesTurn (d_ply p) in
                let fenStr := pushed_fen fen (d_ply p) in
                let eng2 :=
                  option_map
                    (fun g =>
                       Engine.set_currentFen
                         (Engine.completeFen (Js.Str fenStr)) g) eng1 in
                let st1 := dispatch fenStr st in
                let posted :=
                  match eng2 with
                  | Some g =>
                      if (Engine.autoMoveEnabled g
                          && ((Js.truthy (Engine.isWhite g) && white)
                              || (negb (Js.truthy (Engine.isWhite g))
                                  && negb white)))%bool
                      then Engine.calculateMove g
                      else []
                  | None => []
                  end in
                (eng2, st1, posted)
            | _ => (eng1, st, [])
            end
        | None => (eng1, st, [])
        end
      else (eng1, st, [])
  end.

(** *** Predicates on states and events *)

(** At most one timer is live; a live timer belongs to the pending
    attempt and is the one a timer variable names. *)
Definition single_flight (st : state) : Prop :=
  next_id st <> 0%nat
  /\ match timers st with
     | [] => True
     | [tm] =>
         pending st = true /\ tid tm <> 0%nat
         /\ (settleTimer st = Some (tid tm) \/ confirmTimer st = Some (tid tm))
     | _ :: _ :: _ => False
     end.

(** Every read of the page made while handling [ev] returns [P]. *)
Definition reads (P : string) (ev : event) : Prop :=
  match ev with
  | Fire _ _ src => getFEN src = Some P
  | Notify _ | Teardown => True
  end.

(** *** Sample data *)

(** [splitFen("8/8/8/8/8/8/8/8 w")] *)
Definition empty_board_w : fields :=
  {| placement := Js.Str "8/8/8/8/8/8/8/8"; active := Js.Str "w";
     castling := Js.Str "-"; ep := Js.Str "-"; half := Js.Str "-";
     full := Js.Str "-"; raw := "8/8/8/8/8/8/8/8 w" |}.

(** [splitFen("8/8/8/8/8/8/7p w")] *)
Definition one_pawn_w : fields :=
  {| placement := Js.Str "8/8/8/8/8/8/7p"; active := Js.Str "w";
     castling := Js.Str "-"; ep := Js.Str "-"; half := Js.Str "-";
     full := Js.Str "-"; raw := "8/8/8/8/8/8/7p w" |}.

(** [{"t":"move","d":{"fen":"8/8/8/8/8/8/8/8","ply":5}}] *)
Definition move_ply5 : message :=
  {| msg_t := Js.Str "move"; msg_type := Js.Undefined;
     msg_id := Js.Undefined; msg_status := None;
     msg_d := Some {| d_id := Js.Undefined; d_player := None;
                      d_status := None; d_fen := Js.Str "8/8/8/8/8/8/8/8";
                      d_ply := Some 5%Z |} |}.

(** [{"t":"move","type":"gameState","status":30,
      "d":{"fen":"8/8/8/8/8/8/8/8","ply":5}}] *)
Definition move_game_over : message :=
  {| msg_t := Js.Str "move"; msg_type := Js.Str "gameState";
     msg_id := Js.Undefined; msg_status := Some 30%Z;
     msg_d := Some {| d_id := Js.Undefined; d_player := None;
                      d_status := None; d_fen := Js.Str "8/8/8/8/8/8/8/8";
                      d_ply := Some 5%Z |} |}.

End Listener.

(** ** [src/chess_engine_setup.js]: socket and engine listeners *)

Module EngineIO.

Import Engine.

Definition set_bestMove (v : Js.value) (g : globals) : globals :=
  {| chessEngine := chessEngine g; webSocketWrapper := webSocketWrapper g;
     currentFen := currentFen g; bestMove := v; gameId := gameId g;
     isWhite := isWhite g; timeLimitMs := timeLimitMs g;
     autoMoveEnabled := autoMoveEnabled g |}.

Definition set_webSocketWrapper (v : Js.value) (g : globals) : globals :=
  {| chessEngine := chessEngine g; webSocketWrapper := v;
     currentFen := currentFen g; bestMove := bestMove g; gameId := gameId g;
     isWhite := isWhite g; timeLimitMs := timeLimitMs g;
     autoMoveEnabled := autoMoveEnabled g |}.

(** *** The listener of [interceptWebSocket] *)

(** The [construct] trap, for the socket [ws] just created. *)
Definition onConstruct (ws : nat) (g : globals) : globals :=
  set_webSocketWrapper (Js.Obj ws) g.

(** The [gameFull] branch. *)
Definition onGameFull (msg : Listener.message) (g : globals) : globals :=
  let g1 :=
    if Js.truthy (Listener.msg_id msg) then set_gameId (Listener.msg_id msg) g
    else match Listener.msg_d msg with
         | Some p =>
             if Js.truthy (Listener.d_id p)
             then set_gameId (Listener.d_id p) g else g
         | None => g
         end in
  match Listener.msg_d msg with
  | Some p =>
      match Listener.d_player p with
      | Some pl =>
          if Js.truthy (Listener.color pl)
          then set_isWhite
                 (Js.Bool (Js.strict_eq (Listener.color pl) (Js.Str "white")))
                 g1
          else g1
      | None => g1
      end
  | None => g1
  end.

(** [partialFen] for [message.d.fen] and [message.d.ply]. *)
Definition partialFen (fen : string) (ply : option Z) : string :=
  let turn := if Listener.isWhitesTurn ply then "w" else "b" in
  if (negb (Js.includes " w " fen) && negb (Js.includes " b " fen))%bool
  then (fen ++ " " ++ turn)%string
  else fen.

(** The message listener; [data] is [None] when [JSON.parse] raises or
    does not give an object.  The result holds the module variables and
    the messages posted to the engine. *)
Definition onSocketMessage (data : option Listener.message) (g : globals)
    : globals * list string :=
  match data with
  | None => (g, [])
  | Some msg =>
      let g1 := if Listener.is_kind msg "gameFull" then onGameFull msg g else g in
      if (Listener.is_kind msg "gameState"
          && Listener.game_over (Listener.message_status msg))%bool
      then (handleGameEnd g1, [])
      else if (Js.strict_eq (Listener.msg_t msg) (Js.Str "d")
               || Js.strict_eq (Listener.msg_t msg) (Js.Str "move"))%bool
      then
        match Listener.msg_d msg with
        | Some p =>
            match Listener.d_fen p with
            | Js.Str fen =>
                let ply := Listener.d_ply p in
                let white := Listener.isWhitesTurn ply in
                let g2 :=
                  set_currentFen (completeFen (Js.Str (partialFen fen ply))) g1 in
                if ((Js.truthy (isWhite g2) && white)
                    || (negb (Js.truthy (isWhite g2)) && negb white))%bool
                then (g2, calculateMove g2)
                else (g2, [])
            | _ => (g1, [])
            end
        | None => (g1, [])
        end
      else (g1, [])
  end.

(** *** The handler installed by [setupChessEngineOnMessage] *)

(** [s.split(' ')] *)
Fixpoint split_char (sep : ascii) (cur : string) (s : string) : list string :=
  match s with
  | EmptyString => [cur]
  | String c r =>
      if Ascii.eqb c sep then cur :: split_char sep EmptyString r
      else split_char sep (cur ++ String c EmptyString)%string r
  end.

Definition split_space (s : string) : list string :=
  split_char " "%char EmptyString s.

(** What the engine hands to [onmessage]: a string, or an object with a
    [data] property. *)
Inductive engine_event : Type :=
| EvString (s : string)
| EvObject (data : Js.value).

(** The object given to [JSON.stringify] and sent; its [t] is ["move"]. *)
Record move_message : Type := mkMove {
  u : Js.value;
  b : Z;
  l : Z;
  a : Z
}.

(** [chessEngine.onmessage]; [isOpen] tells whether
    [webSocketWrapper.readyState === WebSocket.OPEN].  The result holds
    the module variables and the messages sent on the socket. *)
Definition onEngineMessage (event : engine_event) (isOpen : bool)
    (g : globals) : globals * list move_message :=
  let data := match event with
              | EvString s => Js.Str s
              | EvObject d => d
              end in
  if (negb (Js.truthy data) || negb (Js.is_string data))%bool then (g, [])
  else
    match data with
    | Js.Str s =>
        if String.prefix "bestmove" s then
          let parts := split_space s in
          if ((2 <=? List.length parts)%nat
              && negb (Js.strict_eq (Js.index parts 1) (Js.Str "(none)")))%bool
          then
            let g1 := set_bestMove (Js.index parts 1) g in
            if (Js.truthy (webSocketWrapper g1) && isOpen)%bool
            then (g1, [ {| u := bestMove g1; b := 1; l := 10000; a := 1 |} ])
            else (g1, [])
          else (g, [])
        else (g, [])
    | _ => (g, [])
    end.

(** *** Sample data *)

(** An engine and a socket are known, automove is on, and the player's
    colour is [colour]. *)
Definition ready (colour : Js.value) : globals :=
  {| chessEngine := Js.Obj 1; webSocketWrapper := Js.Obj 2;
     currentFen := Js.Null; bestMove := Js.Null; gameId := Js.Null;
     isWhite := colour; timeLimitMs := 1000; autoMoveEnabled := true |}.

End EngineIO.

(** ** Predicates used in the statements *)

Module Pred.

(** No code unit of [s] is white space. *)
Fixpoint no_space (s : string) : bool :=
  match s with
  | EmptyString => true
  | String c r => (negb (Js.is_space c) && no_space r)%bool
  end.

(** A field of a position string: not empty, no white space. *)
Definition token (s : string) : Prop := s <> "" /\ no_space s = true.

Definition starts_nonspace (s : string) : bool :=
  match s with
  | EmptyString => false
  | String c _ => negb (Js.is_space c)
  end.

Fixpoint ends_nonspace (s : string) : bool :=
  match s with
  | EmptyString => false
  | String c EmptyString => negb (Js.is_space c)
  | String _ r => ends_nonspace r
  end.

(** The fields put together with single blanks. *)
Fixpoint join (toks : list string) : string :=
  match toks with
  | [] => EmptyString
  | [t] => t
  | t :: rest => (t ++ " " ++ join rest)%string
  end.

(** No code unit of [s] is a blank. *)
Fixpoint no_blank (s : string) : bool :=
  match s with
  | EmptyString => true
  | String c r => (negb (Ascii.eqb c " ") && no_blank r)%bool
  end.

(** Two position strings with the same placement and active colour. *)
Definition same_key (x y : string) : bool :=
  match Listener.splitFen (Some x), Listener.splitFen (Some y) with
  | Some fx, Some fy =>
      (Js.strict_eq (Listener.placement fx) (Listener.placement fy)
       && Js.strict_eq (Listener.active fx) (Listener.active fy))%bool
  | _, _ => false
  end.

(** No two neighbours of the list have the same placement and colour. *)
Fixpoint no_repeat (es : list string) : Prop :=
  match es with
  | x :: ((y :: _) as tl) => same_key x y = false /\ no_repeat tl
  | _ => True
  end.

(** The last-sent pair is that of the last dispatched event. *)
Definition tracks_last (st : Listener.state) : Prop :=
  match rev (Listener.events st) with
  | [] => Listener.lastSentPlacement st = Js.Null
          /\ Listener.lastSentActive st = Js.Null
  | e :: _ =>
      exists f, Listener.splitFen (Some e) = Some f
                /\ Listener.lastSentPlacement st = Listener.placement f
                /\ Listener.lastSentActive st = Listener.active f
  end.

End Pred.

(** * Properties *)

Import Listener.

(** ** Sanity checks of the string primitives *)

Example split_ex1 : Js.split_ws "a  b c" = ["a"; "b"; "c"].
Proof. reflexivity. Qed.
Example split_ex2 : Js.split_ws " a " = [""; "a"; ""].
Proof. reflexivity. Qed.
Example split_ex3 : Js.split_ws "" = [""].
Proof. reflexivity. Qed.
Example trim_ex1 : Js.trim "  a b  " = "a b".
Proof. reflexivity. Qed.
Example pad_ex1 : Js.pad_to 6 ["a"] "-" = ["a"; "-"; "-"; "-"; "-"; "-"].
Proof. reflexivity. Qed.
Example completeFen_ex1 :
  Engine.completeFen (Js.Str "8/8/8/8/8/8/8/8 b")
  = Js.Str "8/8/8/8/8/8/8/8 b KQkq - 0 1".
Proof. reflexivity. Qed.
Example calculateMove_ex1 :
  Engine.calculateMove
    (Engine.set_autoMoveEnabled true
       {| Engine.chessEngine := Js.Obj 1; Engine.webSocketWrapper := Js.Null;
          Engine.currentFen := Js.Str "8/8 w KQkq - 0 1";
          Engine.bestMove := Js.Null; Engine.gameId := Js.Null;
          Engine.isWhite := Js.Null; Engine.timeLimitMs := 1000;
          Engine.autoMoveEnabled := false |})
  = ["position fen 8/8 w KQkq - 0 1"; "go depth 4 movetime 1000"].
Proof. reflexivity. Qed.

(** ** Field normaliser *)

Section Normaliser.

Lemma push_n_length (k : nat) (x : string) :
  forall parts, List.length (Js.push_n k parts x) = (List.length parts + k)%nat.
Proof.
  induction k as [|k IH]; intros parts; simpl.
  - lia.
  - rewrite IH, length_app. simpl. lia.
Qed.

Lemma pad_to_length (n : nat) (parts : list string) (x : string) :
  (n <= List.length (Js.pad_to n parts x))%nat.
Proof.
  unfold Js.pad_to. rewrite push_n_length. lia.
Qed.

Lemma index_defined (parts : list string) (i : nat) :
  (i < List.length parts)%nat -> exists s, Js.index parts i = Js.Str s.
Proof.
  intros Hi. unfold Js.index.
  destruct (nth_error parts i) as [s|] eqn:E.
  - now exists s.
  - apply nth_error_None in E. lia.
Qed.

Lemma or_string_nonempty (v : Js.value) (d : string) :
  (forall r, v <> Js.Obj r) -> (forall z, v <> Js.Num z) ->
  (forall b, v <> Js.Bool b) -> d <> "" ->
  exists s, Js.or v (Js.Str d) = Js.Str s /\ s <> "".
Proof.
  intros Ho Hn Hb Hd. unfold Js.or.
  destruct v as [| |b|z|s|r]; simpl;
    try (exists d; split; [reflexivity|assumption]).
  - now destruct (Hb b).
  - now destruct (Hn z).
  - destruct (String.eqb s "") eqn:E; simpl.
    + exists d; split; [reflexivity|assumption].
    + exists s; split; [reflexivity|]. now apply String.eqb_neq.
  - now destruct (Ho r).
Qed.

Lemma index_or_nonempty (parts : list string) (i : nat) (d : string) :
  d <> "" ->
  exists s, Js.or (Js.index parts i) (Js.Str d) = Js.Str s /\ s <> "".
Proof.
  intros Hd. apply or_string_nonempty; trivial;
    unfold Js.index; destruct (nth_error parts i); discriminate.
Qed.

Lemma truthy_str (s : string) : s <> "" -> Js.truthy (Js.Str s) = true.
Proof.
  intros H. simpl. apply negb_true_iff. now apply String.eqb_neq.
Qed.

Lemma splitFen_some_raw (fen : option string) (f : fields) :
  splitFen fen = Some f -> fen = Some (raw f) /\ raw f <> "".
Proof.
  destruct fen as [s|]; simpl; [|discriminate].
  destruct (String.eqb s "") eqn:E; simpl; [discriminate|].
  intros H. injection H as <-. simpl. split; [reflexivity|].
  now apply String.eqb_neq.
Qed.

(** Whenever the string is a single token, the padding decides all five
    remaining fields. *)
Lemma splitFen_single_token (fen tok : string) :
  fen <> "" ->
  Js.split_ws fen = [tok] ->
  splitFen (Some fen)
  = Some {| placement := Js.Str tok; active := Js.Str "-";
            castling := Js.Str "-"; ep := Js.Str "-"; half := Js.Str "-";
            full := Js.Str "-"; raw := fen |}.
Proof.
  intros Hne Hsplit. unfold splitFen.
  rewrite (truthy_str fen Hne), Hsplit. reflexivity.
Qed.

End Normaliser.

(** C2.  On the placement-only start position the normaliser does not
    produce the defaults ["?"], ["0"] and ["1"]: the padding loop has
    already filled the five missing slots with ["-"], which is truthy, so
    every [||] keeps the ["-"]. *)
Theorem C2_placement_only_gets_dashes :
  splitFen (Some "rnbqkbnr/pppppppp/8/8/8/8/PPPPPPPP/RNBQKBNR")
  = Some {| placement := Js.Str "rnbqkbnr/pppppppp/8/8/8/8/PPPPPPPP/RNBQKBNR";
            active := Js.Str "-";
            castling := Js.Str "-";
            ep := Js.Str "-";
            half := Js.Str "-";
            full := Js.Str "-";
            raw := "rnbqkbnr/pppppppp/8/8/8/8/PPPPPPPP/RNBQKBNR" |}.
Proof. vm_compute. reflexivity. Qed.

(** C5, as stated, fails at the empty string: it has no token at all and
    its normalisation is absent, not a six-field record. *)
Lemma C5_empty_string_is_absent :
  ~ (forall fen : string,
       exists f, splitFen (Some fen) = Some f /\ raw f = fen).
Proof.
  intros H. destruct (H "") as [f [Hf _]]. discriminate Hf.
Qed.

(** C5, amended.  Every non-empty raw string, whatever its number of
    white-space separated tokens, normalises to a record whose six named
    fields all hold strings (none is undefined), the five after
    [placement] non-empty ones, and whose [raw] is the input verbatim;
    the empty string and [null] normalise to absent. *)
Theorem C5_six_fields (fen : string) :
  fen <> "" ->
  exists f p a c e h u,
    splitFen (Some fen) = Some f
    /\ placement f = Js.Str p
    /\ (active f = Js.Str a /\ a <> "")
    /\ (castling f = Js.Str c /\ c <> "")
    /\ (ep f = Js.Str e /\ e <> "")
    /\ (half f = Js.Str h /\ h <> "")
    /\ (full f = Js.Str u /\ u <> "")
    /\ raw f = fen
    /\ splitFen (Some "") = None /\ splitFen None = None.
Proof.
  intros Hne. unfold splitFen. rewrite (truthy_str fen Hne). simpl negb.
  set (parts := Js.pad_to 6 (Js.split_ws fen) "-").
  assert (Hlen : (6 <= List.length parts)%nat) by apply pad_to_length.
  destruct (index_defined parts 0) as [p Hp]; [lia|].
  destruct (index_or_nonempty parts 1 "?") as [a Ha]; [discriminate|].
  destruct (index_or_nonempty parts 2 "-") as [c Hc]; [discriminate|].
  destruct (index_or_nonempty parts 3 "-") as [e He]; [discriminate|].
  destruct (index_or_nonempty parts 4 "0") as [h Hh]; [discriminate|].
  destruct (index_or_nonempty parts 5 "1") as [u Hu]; [discriminate|].
  eexists; exists p, a, c, e, h, u. cbn [placement active castling ep half full raw].
  repeat split; try reflexivity; try tauto.
Qed.

(** The amended C5 at a two-token input. *)
Lemma C5_six_fields_witness :
  exists f p a c e h u,
    splitFen (Some "8/8/8/8/8/8/8/8 w") = Some f
    /\ placement f = Js.Str p
    /\ (active f = Js.Str a /\ a <> "")
    /\ (castling f = Js.Str c /\ c <> "")
    /\ (ep f = Js.Str e /\ e <> "")
    /\ (half f = Js.Str h /\ h <> "")
    /\ (full f = Js.Str u /\ u <> "")
    /\ raw f = "8/8/8/8/8/8/8/8 w"
    /\ splitFen (Some "") = None /\ splitFen None = None.
Proof.
  apply (C5_six_fields "8/8/8/8/8/8/8/8 w"). discriminate.
Defined.

(** ** Engine script *)

(** C9.  A non-empty input whose trimmed form splits into the single
    token [tok] is completed to [tok] followed by [" w KQkq - 0 1"]; an
    input that is not a string (null among them) gives [null]. *)
Theorem C9_completeFen_single_token :
  (forall s tok : string,
      s <> "" ->
      Js.split_ws (Js.trim s) = [tok] ->
      Engine.completeFen (Js.Str s) = Js.Str (tok ++ " w KQkq - 0 1"))
  /\ (forall v : Js.value,
         Js.is_string v = false -> Engine.completeFen v = Js.Null).
Proof.
  split.
  - intros s tok Hne Hsplit. unfold Engine.completeFen.
    rewrite (truthy_str s Hne). cbn [negb Js.is_string orb].
    rewrite Hsplit. cbn [Js.index nth_error].
    assert (Hp : Js.to_string (Js.or (Js.Str tok) (Js.Str "")) = tok).
    { unfold Js.or. simpl. destruct (String.eqb tok "") eqn:E; simpl.
      - apply String.eqb_eq in E. now subst.
      - reflexivity. }
    rewrite Hp. reflexivity.
  - intros v Hv. unfold Engine.completeFen. rewrite Hv.
    now rewrite orb_true_r.
Qed.

(** C9 at a placement-only string with blanks around it. *)
Lemma C9_completeFen_single_token_witness :
  Engine.completeFen (Js.Str " 8/8/8/8/8/8/8/8 ")
  = Js.Str "8/8/8/8/8/8/8/8 w KQkq - 0 1"
  /\ Engine.completeFen Js.Null = Js.Null.
Proof.
  split.
  - apply (proj1 C9_completeFen_single_token " 8/8/8/8/8/8/8/8 "
             "8/8/8/8/8/8/8/8"); [discriminate | reflexivity].
  - apply (proj2 C9_completeFen_single_token Js.Null). reflexivity.
Defined.

(** C10.  [handleGameEnd] sets [currentFen], [bestMove], [gameId] and
    [isWhite] to [null] and leaves [chessEngine], [webSocketWrapper],
    [timeLimitMs] and [autoMoveEnabled] as they were. *)
Theorem C10_handleGameEnd_frame (g : Engine.globals) :
  let g' := Engine.handleGameEnd g in
  (Engine.currentFen g' = Js.Null
   /\ Engine.bestMove g' = Js.Null
   /\ Engine.gameId g' = Js.Null
   /\ Engine.isWhite g' = Js.Null)
  /\ (Engine.chessEngine g' = Engine.chessEngine g
      /\ Engine.webSocketWrapper g' = Engine.webSocketWrapper g
      /\ Engine.timeLimitMs g' = Engine.timeLimitMs g
      /\ Engine.autoMoveEnabled g' = Engine.autoMoveEnabled g).
Proof.
  destruct g; cbv; intuition.
Qed.

(** ** Change stabiliser: one step *)

Section Deciding.

Variables (start now : Z) (f1 : fields) (src : source) (st : state).

(** C1.  When the confirm callback obtains a second sample [f2]:
    if the two samples agree on placement and active and [f2] differs
    from the last sent pair, [raw f2] is dispatched, the last sent pair
    becomes that of [f2] and [pending] is cleared; otherwise, while less
    than [MAX_WAIT_MS] have passed since [start], [attempt] is scheduled
    again after [STABLE_DELAY_MS] and nothing else changes; otherwise
    [pending] is cleared and nothing is dispatched. *)
Theorem C1_deciding_step (f2 : fields) :
  splitFen (getFEN src) = Some f2 ->
  let unchanged :=
    (Js.strict_eq (placement f2) (placement f1)
     && Js.strict_eq (active f2) (active f1))%bool in
  let isNewPosition :=
    (negb (Js.strict_eq (placement f2) (lastSentPlacement st))
     || negb (Js.strict_eq (active f2) (lastSentActive st)))%bool in
  let st' := confirm start f1 now src st in
  (unchanged = true -> isNewPosition = true ->
     events st' = events st ++ [raw f2]
     /\ lastSentPlacement st' = placement f2
     /\ lastSentActive st' = active f2
     /\ pending st' = false
     /\ timers st' = timers st)
  /\ ((unchanged && isNewPosition)%bool = false ->
      (now - start < 1500)%Z ->
        timers st' = timers st
                     ++ [ {| tid := next_id st; delay := STABLE_DELAY_MS;
                             cb := Attempt start |} ]
        /\ settleTimer st' = Some (next_id st)
        /\ pending st' = pending st
        /\ events st' = events st
        /\ lastSentPlacement st' = lastSentPlacement st
        /\ lastSentActive st' = lastSentActive st)
  /\ ((unchanged && isNewPosition)%bool = false ->
      (1500 <= now - start)%Z ->
        st' = set_pending false st).
Proof.
  intros Hf2 unchanged isNewPosition st'.
  destruct (splitFen_some_raw _ _ Hf2) as [_ Hraw].
  subst st'. unfold confirm. rewrite Hf2.
  fold unchanged isNewPosition.
  split; [|split].
  - intros Hu Hn. rewrite Hu, Hn. cbn [andb]. unfold dispatch.
    rewrite (truthy_str _ Hraw). cbn. auto.
  - intros Hno Hlt. rewrite andb_comm, Hno. unfold MAX_WAIT_MS.
    destruct (Z.ltb_spec (now - start) 1500) as [_|Hge]; [|lia].
    cbn. auto 7.
  - intros Hno Hge. rewrite andb_comm, Hno. unfold MAX_WAIT_MS.
    destruct (Z.ltb_spec (now - start) 1500) as [Hlt|_]; [lia|].
    reflexivity.
Qed.

End Deciding.

(** C1 on the success scenario (both samples ["8/8/8/8/8/8/8/8 w"],
    nothing sent before) and on a mid-transition one (the samples
    differ, 340 time units after the start). *)
Lemma C1_deciding_step_witness :
  (events (confirm 0 empty_board_w 340
             (AccessorReturns (Js.Str "8/8/8/8/8/8/8/8 w"))
             (set_pending true init))
   = [] ++ ["8/8/8/8/8/8/8/8 w"])
  /\ (settleTimer
        (confirm 0 empty_board_w 340
           (AccessorReturns (Js.Str "8/8/8/8/8/8/7p w"))
           (set_pending true init))
      = Some 1%nat).
Proof.
  split.
  - apply (C1_deciding_step 0 340 empty_board_w
             (AccessorReturns (Js.Str "8/8/8/8/8/8/8/8 w"))
             (set_pending true init) empty_board_w eq_refl); reflexivity.
  - apply (C1_deciding_step 0 340 empty_board_w
             (AccessorReturns (Js.Str "8/8/8/8/8/8/7p w"))
             (set_pending true init) one_pawn_w eq_refl);
      [reflexivity | lia].
Defined.

(** C7.  The listed read failures all give an absent sample, without
    anything raised by [getFEN]; and an absent sample, in the sampling
    step or in the confirming one, only clears [pending]: nothing is
    dispatched, the last sent pair stays, no timer is scheduled. *)
Theorem C7_absent_sample_abandons :
  (getFEN NoElement = None /\ getFEN NoGame = None
   /\ getFEN NoAccessor = None /\ getFEN AccessorThrows = None
   /\ getFEN (AccessorReturns Js.Null) = None
   /\ (forall v, Js.is_string v = false -> getFEN (AccessorReturns v) = None)
   /\ splitFen None = None
   /\ splitFen (getFEN (AccessorReturns (Js.Str ""))) = None)
  /\ forall (src : source) (start now : Z) (f1 : fields) (st : state),
      splitFen (getFEN src) = None ->
      forall st',
        st' = attempt start src st \/ st' = confirm start f1 now src st ->
        pending st' = false
        /\ events st' = events st
        /\ lastSentPlacement st' = lastSentPlacement st
        /\ lastSentActive st' = lastSentActive st
        /\ timers st' = timers st
        /\ st' = set_pending false st.
Proof.
  split.
  - repeat split; try reflexivity.
    intros v Hv. destruct v; try reflexivity; discriminate.
  - intros src start now f1 st Habs st' [-> | ->];
      unfold attempt, confirm; rewrite Habs; cbn; auto 7.
Qed.

(** C7 when the accessor raises in the sampling step. *)
Lemma C7_absent_sample_abandons_witness :
  pending (attempt 0 AccessorThrows (stableEmit 0 init)) = false
  /\ events (attempt 0 AccessorThrows (stableEmit 0 init)) = [].
Proof.
  destruct (proj2 C7_absent_sample_abandons AccessorThrows 0%Z 0%Z
              {| placement := Js.Null; active := Js.Null;
                 castling := Js.Null; ep := Js.Null; half := Js.Null;
                 full := Js.Null; raw := "" |}
              (stableEmit 0 init) eq_refl
              (attempt 0 AccessorThrows (stableEmit 0 init))
              (or_introl eq_refl)) as (Hp & He & _).
  split; [exact Hp | exact He].
Defined.

(** ** Direct feed *)

Section DirectFeed.

Lemma split_from_nonempty (s : string) :
  forall cur b, Js.split_from cur b s <> [].
Proof.
  induction s as [|c r IH]; intros cur b; simpl.
  - discriminate.
  - destruct (Js.is_space c); [destruct b|]; try apply IH; discriminate.
Qed.

Lemma space_is_space (c : ascii) : c = " "%char -> Js.is_space c = true.
Proof. intros ->. reflexivity. Qed.

(** A string that splits into one token holds no [" w "] or [" b "]. *)
Lemma single_token_no_color (s : string) :
  forall cur, List.length (Js.split_from cur false s) = 1%nat ->
              Js.includes " w " s = false /\ Js.includes " b " s = false.
Proof.
  induction s as [|c r IH]; intros cur Hlen.
  - split; reflexivity.
  - simpl in Hlen. destruct (Js.is_space c) eqn:Hc.
    + simpl in Hlen.
      pose proof (split_from_nonempty r EmptyString true) as Hne.
      destruct (Js.split_from EmptyString true r); [congruence|discriminate].
    + destruct (IH _ Hlen) as [Hw Hb].
      assert (Hneq : " "%char <> c).
      { intros E. symmetry in E. apply space_is_space in E. congruence. }
      split; cbn [Js.includes String.prefix];
        (destruct (ascii_dec " " c); [contradiction|assumption]).
Qed.

Lemma missing_active_single_token (fen : string) :
  Js.index (Js.split_ws fen) 1 = Js.Undefined ->
  List.length (Js.split_ws fen) = 1%nat.
Proof.
  unfold Js.index, Js.split_ws.
  pose proof (split_from_nonempty fen EmptyString false) as Hne.
  destruct (Js.split_from EmptyString false fen) as [|a [|b l]];
    simpl; congruence.
Qed.

Lemma rem2_even (n : Z) : Z.eqb (Z.rem n 2) 0 = Z.even n.
Proof.
  pose proof (Z.quot_rem' n 2) as Hq.
  destruct (Z.even n) eqn:He.
  - apply Z.eqb_eq. apply Z.even_spec in He. destruct He as [k ->].
    rewrite Z.mul_comm. apply Z.rem_mul. lia.
  - apply Z.eqb_neq. intros H0. rewrite H0 in Hq.
    assert (Hev : Z.even n = true)
      by (apply Z.even_spec; exists (Z.quot n 2); lia).
    congruence.
Qed.

Lemma pushed_fen_nonempty (fen : string) (ply : option Z) :
  pushed_fen fen ply <> "".
Proof.
  unfold pushed_fen. destruct fen as [|c r].
  - simpl. destruct (isWhitesTurn ply); discriminate.
  - destruct (negb _ && negb _)%bool; simpl; discriminate.
Qed.

End DirectFeed.

(** C8, as stated, fails: a message of kind ["move"] that carries a
    position string but is also a [gameState] message with status 30 is
    consumed by the game-end branch, which returns before the position
    is looked at, so nothing is dispatched. *)
Lemma C8_game_over_message_dispatches_nothing :
  msg_t move_game_over = Js.Str "move"
  /\ (exists p, msg_d move_game_over = Some p
                /\ d_fen p = Js.Str "8/8/8/8/8/8/8/8")
  /\ events (snd (fst (onMessage (Some move_game_over) None init))) = []
  /\ events (snd (fst (onMessage (Some move_game_over) None init)))
     <> events init ++ ["8/8/8/8/8/8/8/8 b"].
Proof.
  split; [reflexivity|]. split; [eexists; split; reflexivity|].
  split; [reflexivity|discriminate].
Qed.

(** C8, amended.  A message of kind ["d"] or ["move"] whose [d.fen] is a
    string, and which the game-end branch does not consume, has its
    position dispatched by the listener itself: whatever [pending] and
    the timers are, they stay as they are and no timer is scheduled.
    When the position string has no second field, the dispatched string
    is the position followed by [" w"] for an even ply and [" b"] for an
    odd one. *)
Theorem C8_direct_feed (msg : message) (p : payload) (fen : string)
    (eng : option Engine.globals) (st : state) :
  msg_t msg = Js.Str "d" \/ msg_t msg = Js.Str "move" ->
  msg_d msg = Some p ->
  d_fen p = Js.Str fen ->
  (is_kind msg "gameState" && game_over (message_status msg))%bool = false ->
  let st' := snd (fst (onMessage (Some msg) eng st)) in
  events st' = events st ++ [pushed_fen fen (d_ply p)]
  /\ (pending st' = pending st /\ timers st' = timers st
      /\ settleTimer st' = settleTimer st
      /\ confirmTimer st' = confirmTimer st
      /\ next_id st' = next_id st /\ cleared st' = cleared st
      /\ lastSentPlacement st' = lastSentPlacement st
      /\ lastSentActive st' = lastSentActive st)
  /\ (Js.index (Js.split_ws fen) 1 = Js.Undefined ->
      forall n, d_ply p = Some n ->
        pushed_fen fen (d_ply p)
        = (fen ++ (if Z.even n then " w" else " b"))%string).
Proof.
  intros Ht Hd Hfen Hover st'.
  assert (Hst : st' = dispatch (pushed_fen fen (d_ply p)) st).
  { subst st'. unfold onMessage. rewrite Hover, Hd, Hfen.
    assert (Hk : (Js.strict_eq (msg_t msg) (Js.Str "d")
                  || Js.strict_eq (msg_t msg) (Js.Str "move"))%bool = true)
      by (destruct Ht as [-> | ->]; reflexivity).
    rewrite Hk. reflexivity. }
  rewrite Hst. unfold dispatch.
  rewrite (truthy_str _ (pushed_fen_nonempty fen (d_ply p))).
  cbn [negb events pending timers settleTimer confirmTimer next_id cleared
       lastSentPlacement lastSentActive].
  split; [reflexivity|]. split; [auto 9|].
  intros Hmiss n Hn.
  apply missing_active_single_token in Hmiss.
  destruct (single_token_no_color fen EmptyString Hmiss) as [Hw Hb].
  unfold pushed_fen. rewrite Hw, Hb, Hn. cbn [negb andb isWhitesTurn].
  now rewrite rem2_even.
Qed.

(** C8, amended, on [fen = "8/8/8/8/8/8/8/8"] with [ply = 5], while a
    stabilisation attempt is pending. *)
Lemma C8_direct_feed_witness :
  events (snd (fst (onMessage (Some move_ply5) None (stableEmit 0 init))))
  = [] ++ [pushed_fen "8/8/8/8/8/8/8/8" (Some 5%Z)]
  /\ pushed_fen "8/8/8/8/8/8/8/8" (Some 5%Z) = "8/8/8/8/8/8/8/8 b".
Proof.
  destruct (C8_direct_feed move_ply5
              {| d_id := Js.Undefined; d_player := None; d_status := None;
                 d_fen := Js.Str "8/8/8/8/8/8/8/8"; d_ply := Some 5%Z |}
              "8/8/8/8/8/8/8/8" None (stableEmit 0 init)
              (or_intror eq_refl) eq_refl eq_refl eq_refl)
    as (He & _ & Hc).
  split; [exact He|]. exact (Hc eq_refl 5%Z eq_refl).
Defined.

(** ** Change stabiliser: runs *)

Section Runs.

Lemma run_app (evs1 evs2 : list event) (st : state) :
  run (evs1 ++ evs2) st = run evs2 (run evs1 st).
Proof. unfold run. apply fold_left_app. Qed.

Lemma run_cons (ev : event) (evs : list event) (st : state) :
  run (ev :: evs) st = run evs (step ev st).
Proof. reflexivity. Qed.

Lemma single_flight_startup (src : source) : single_flight (startup src).
Proof.
  unfold startup. destruct (splitFen (getFEN src)) as [fi|].
  - unfold dispatch. destruct (negb _); split; simpl; auto.
  - split; simpl; auto.
Qed.

Lemma single_flight_attempt (start : Z) (src : source) (st : state) :
  timers st = [] -> pending st = true -> next_id st <> 0%nat ->
  single_flight (attempt start src st).
Proof.
  intros Ht Hp Hn. unfold attempt.
  destruct (splitFen (getFEN src)) as [f1|]; split; simpl;
    rewrite ?Ht; simpl; auto.
Qed.

Lemma single_flight_confirm (start now : Z) (f1 : fields) (src : source)
    (st : state) :
  timers st = [] -> pending st = true -> next_id st <> 0%nat ->
  single_flight (confirm start f1 now src st).
Proof.
  intros Ht Hp Hn. unfold confirm.
  destruct (splitFen (getFEN src)) as [f2|]; [|split; simpl; rewrite ?Ht; auto].
  destruct (_ && _)%bool.
  - unfold dispatch. destruct (negb _); split; simpl; rewrite ?Ht; auto.
  - destruct (_ <? _)%Z; split; simpl; rewrite ?Ht; simpl; auto.
Qed.

Lemma clearTimers_next_id (st : state) :
  next_id (clearTimers st) = next_id st.
Proof.
  unfold clearTimers.
  destruct (handle_set (settleTimer st)); simpl;
    destruct (handle_set (confirmTimer st)); reflexivity.
Qed.

Lemma handle_set_some (id : nat) : id <> 0%nat -> handle_set (Some id) = Some id.
Proof.
  intros H. simpl. destruct (Nat.eqb_spec id 0); [contradiction|reflexivity].
Qed.

(** [clearTimers] leaves no timer live in a single-flight state. *)
Lemma clearTimers_no_timer (st : state) :
  single_flight st -> timers (clearTimers st) = [].
Proof.
  intros [_ H]. unfold clearTimers.
  destruct (timers st) as [|tm [|tm' l]] eqn:Ht; [| |contradiction].
  - destruct (handle_set (settleTimer st)); simpl;
      destruct (handle_set (confirmTimer st)); simpl; rewrite Ht; reflexivity.
  - destruct H as (_ & Hid & [Hs | Hc]).
    + rewrite Hs, (handle_set_some _ Hid). simpl.
      destruct (handle_set (confirmTimer st)); simpl; rewrite Ht; simpl;
        rewrite Nat.eqb_refl; reflexivity.
    + destruct (handle_set (settleTimer st)) as [s|]; simpl;
        rewrite Hc, (handle_set_some _ Hid); simpl; rewrite Ht; simpl.
      * destruct (Nat.eqb (tid tm) s); simpl; rewrite ?Nat.eqb_refl; reflexivity.
      * rewrite Nat.eqb_refl; reflexivity.
Qed.

Lemma single_flight_step (ev : event) (st : state) :
  single_flight st -> single_flight (step ev st).
Proof.
  intros Hinv. pose proof Hinv as [Hn H]. destruct ev as [now|id now src|]; simpl.
  - unfold onAnyChange. destruct (pending st) eqn:Hp; [exact Hinv|].
    destruct (timers st) as [|tm [|tm' l]] eqn:Ht; [| |contradiction].
    + split; simpl; rewrite ?Ht; simpl; auto.
    + destruct H as [Hp' _]. congruence.
  - destruct (timers st) as [|tm [|tm' l]] eqn:Ht; [| |contradiction].
    + exact Hinv.
    + simpl. destruct (Nat.eqb (tid tm) id); simpl; [|exact Hinv].
      destruct H as (Hp & _ & _).
      destruct (cb tm); simpl;
        [apply single_flight_attempt | apply single_flight_confirm]; auto.
  - split.
    + now rewrite clearTimers_next_id.
    + now rewrite (clearTimers_no_timer st Hinv).
Qed.

Lemma single_flight_run (evs : list event) :
  forall st, single_flight st -> single_flight (run evs st).
Proof.
  induction evs as [|ev evs IH]; intros st H; [exact H|].
  rewrite run_cons. apply IH, single_flight_step, H.
Qed.

Lemma reachable_single_flight (st : state) :
  reachable st -> single_flight st.
Proof.
  intros (src & evs & ->). apply single_flight_run, single_flight_startup.
Qed.

Lemma single_flight_idle (st : state) :
  single_flight st -> pending st = false -> timers st = [].
Proof.
  intros [_ H] Hp. destruct (timers st) as [|tm [|tm' l]];
    [reflexivity | | contradiction].
  destruct H as [Hp' _]. congruence.
Qed.

Lemma single_flight_length (st : state) :
  single_flight st -> (List.length (timers st) <= 1)%nat.
Proof.
  intros [_ H]. destruct (timers st) as [|tm [|tm' l]]; simpl;
    [lia | lia | contradiction].
Qed.

Lemma notify_pending (st : state) (now : Z) :
  pending st = true -> step (Notify now) st = st.
Proof. intros Hp. simpl. unfold onAnyChange. now rewrite Hp. Qed.

Lemma notify_burst_pending (nows : list Z) :
  forall st, pending st = true -> run (map Notify nows) st = st.
Proof.
  induction nows as [|now nows IH]; intros st Hp; [reflexivity|].
  cbn [map]. rewrite run_cons, (notify_pending st now Hp). now apply IH.
Qed.

Lemma notify_sets_pending (st : state) (now : Z) :
  pending (step (Notify now) st) = true.
Proof.
  simpl. unfold onAnyChange. destruct (pending st) eqn:Hp; [exact Hp|].
  reflexivity.
Qed.

End Runs.

(** C3.  In every reachable state at most one timer is live, and none
    when no attempt is pending; while [pending] holds a notification
    leaves the state as it is, and so does any burst of them; and from
    any reachable state a burst of notifications does what its first
    notification does alone, so it starts at most one attempt (one call
    of [setTimeout]), however long it is. *)
Theorem C3_single_flight (st : state) :
  reachable st ->
  (List.length (timers st) <= 1)%nat
  /\ (pending st = false -> timers st = [])
  /\ (pending st = true ->
      (forall now, step (Notify now) st = st)
      /\ (forall nows, run (map Notify nows) st = st))
  /\ (forall now nows,
        run (map Notify (now :: nows)) st = step (Notify now) st
        /\ (next_id (run (map Notify (now :: nows)) st) <= S (next_id st))%nat
        /\ (List.length (timers (run (map Notify (now :: nows)) st)) <= 1)%nat).
Proof.
  intros Hr. pose proof (reachable_single_flight st Hr) as Hinv.
  split; [now apply single_flight_length|].
  split; [now apply single_flight_idle|].
  split.
  - intros Hp. split.
    + intros now. now apply notify_pending.
    + intros nows. now apply notify_burst_pending.
  - intros now nows.
    assert (Hrun : run (map Notify (now :: nows)) st = step (Notify now) st).
    { cbn [map]. rewrite run_cons.
      apply notify_burst_pending, notify_sets_pending. }
    rewrite Hrun. split; [reflexivity|]. split.
    + simpl. unfold onAnyChange. destruct (pending st); simpl; lia.
    + apply single_flight_length, single_flight_step, Hinv.
Qed.

(** C3 in the state reached by one notification: three more change
    nothing. *)
Lemma C3_single_flight_witness :
  run (map Notify [1%Z; 2%Z; 3%Z]) (run [Notify 0] (startup NoElement))
  = run [Notify 0] (startup NoElement).
Proof.
  refine (proj2 (proj1 (proj2 (proj2
            (C3_single_flight (run [Notify 0] (startup NoElement)) _))) _) _).
  - exists NoElement, [Notify 0%Z]. reflexivity.
  - reflexivity.
Defined.

Section Idempotence.

Variables (P : string) (f : fields).
Hypothesis HP : splitFen (Some P) = Some f.

Lemma strict_eq_refl (v : Js.value) : Js.strict_eq v v = true.
Proof. unfold Js.strict_eq. destruct (Js.value_eq_dec v v); congruence. Qed.

Lemma clearTimers_frame (st : state) :
  events (clearTimers st) = events st
  /\ lastSentPlacement (clearTimers st) = lastSentPlacement st
  /\ lastSentActive (clearTimers st) = lastSentActive st
  /\ pending (clearTimers st) = pending st.
Proof.
  unfold clearTimers.
  destruct (handle_set (settleTimer st)); simpl;
    destruct (handle_set (confirmTimer st)); simpl; auto.
Qed.

Lemma step_same_position (ev : event) (st : state) :
  placement f = lastSentPlacement st ->
  active f = lastSentActive st ->
  reads P ev ->
  events (step ev st) = events st
  /\ lastSentPlacement (step ev st) = lastSentPlacement st
  /\ lastSentActive (step ev st) = lastSentActive st.
Proof.
  intros Hpl Hac Hread. destruct ev as [now|id now src|]; simpl.
  - unfold onAnyChange. destruct (pending st); simpl; auto.
  - destruct (find _ (timers st)) as [tm|]; [|auto].
    simpl in Hread. destruct (cb tm) as [start|start f1]; simpl.
    + unfold attempt. rewrite Hread, HP. simpl. auto.
    + unfold confirm. rewrite Hread, HP. simpl.
      rewrite <- Hpl, <- Hac, !strict_eq_refl. simpl.
      destruct (_ <? _)%Z; simpl; auto.
  - pose proof (clearTimers_frame st). tauto.
Qed.

Lemma run_same_position (evs : list event) :
  forall st,
    placement f = lastSentPlacement st ->
    active f = lastSentActive st ->
    Forall (reads P) evs ->
    events (run evs st) = events st
    /\ lastSentPlacement (run evs st) = lastSentPlacement st
    /\ lastSentActive (run evs st) = lastSentActive st.
Proof.
  induction evs as [|ev evs IH]; intros st Hpl Hac Hall; [simpl; auto|].
  inversion Hall as [|? ? Hev Hrest]; subst.
  destruct (step_same_position ev st Hpl Hac Hev) as (He & Hp' & Ha').
  rewrite run_cons.
  destruct (IH (step ev st)) as (He2 & Hp2 & Ha2); try congruence.
  repeat split; congruence.
Qed.

End Idempotence.

(** C4.  When the position [P] normalises to the placement and active
    colour recorded as last sent, any sequence of notifications, timer
    firings and calls of [clearTimers] in which every read returns [P]
    dispatches nothing and leaves the recorded pair as it is. *)
Theorem C4_idempotence (P : string) (f : fields) (st : state)
    (evs : list event) :
  splitFen (Some P) = Some f ->
  placement f = lastSentPlacement st ->
  active f = lastSentActive st ->
  Forall (reads P) evs ->
  events (run evs st) = events st
  /\ lastSentPlacement (run evs st) = lastSentPlacement st
  /\ lastSentActive (run evs st) = lastSentActive st.
Proof.
  intros HP Hpl Hac Hall. now apply (run_same_position P f HP).
Qed.

(** C4 after a start-up that sent ["8/8/8/8/8/8/8/8 w"]: two full
    detection cycles reading the same position add no event. *)
Lemma C4_idempotence_witness :
  events
    (run [ Notify 0;
           Fire 1 220 (AccessorReturns (Js.Str "8/8/8/8/8/8/8/8 w"));
           Fire 2 340 (AccessorReturns (Js.Str "8/8/8/8/8/8/8/8 w"));
           Fire 3 560 (AccessorReturns (Js.Str " 8/8/8/8/8/8/8/8 w "));
           Fire 4 680 (AccessorReturns (Js.Str "8/8/8/8/8/8/8/8 w")) ]
       (startup (AccessorReturns (Js.Str "8/8/8/8/8/8/8/8 w"))))
  = events (startup (AccessorReturns (Js.Str "8/8/8/8/8/8/8/8 w"))).
Proof.
  refine (proj1 (C4_idempotence "8/8/8/8/8/8/8/8 w" empty_board_w
                   (startup (AccessorReturns (Js.Str "8/8/8/8/8/8/8/8 w")))
                   _ eq_refl eq_refl eq_refl _)).
  repeat constructor.
Defined.

(** ** Timers *)

(** C6, as stated, fails: after an attempt abandoned on an unreadable
    page, [settleTimer] still names the timer scheduled for it; the next
    notification starts a new cycle and schedules its settle timer, and
    no identifier has been passed to [clearTimeout]. *)
Lemma C6_new_cycle_cancels_nothing :
  let st := run [Notify 0; Fire 1 220 NoElement] (startup NoElement) in
  let st' := step (Notify 300) st in
  pending st = false
  /\ settleTimer st = Some 1%nat
  /\ timers st' = [ {| tid := 2; delay := STABLE_DELAY_MS; cb := Attempt 300 |} ]
  /\ cleared st' = []
  /\ ~ In 1%nat (cleared st').
Proof.
  cbv zeta. repeat split; try reflexivity. intros H. exact H.
Qed.

Section Timers.

Lemma clearTimers_cancels_live (st : state) (tm : timer) :
  single_flight st -> In tm (timers st) ->
  In (tid tm) (cleared (clearTimers st)).
Proof.
  intros [_ H] Hin. unfold clearTimers.
  destruct (timers st) as [|tm0 [|tm' l]] eqn:Ht; [destruct Hin| |contradiction].
  destruct Hin as [->|[]]. destruct H as (_ & Hid & [Hs | Hc]).
  - rewrite Hs, (handle_set_some _ Hid). simpl.
    destruct (handle_set (confirmTimer st)); simpl;
      rewrite ?in_app_iff; simpl; auto.
  - destruct (handle_set (settleTimer st)) as [s|]; simpl;
      rewrite Hc, (handle_set_some _ Hid); simpl;
      rewrite ?in_app_iff; simpl; auto.
Qed.

Lemma fire_without_timer (st : state) (id : nat) (now : Z) (src : source) :
  timers st = [] -> step (Fire id now src) st = st.
Proof. intros Ht. simpl. now rewrite Ht. Qed.

End Timers.

(** C6, amended.  Starting a detection cycle cancels nothing: the call
    of [stableEmit] passes no identifier to [clearTimeout] and only
    schedules the settle timer.  Nothing is there to cancel: in a
    reachable state without a pending attempt no timer is live, so the
    new settle timer is the only live one.  [clearTimers], the hook
    handed out for tearing the listener down, passes every live timer to
    [clearTimeout], after which no timer is live and a firing does
    nothing. *)
Theorem C6_timer_cancellation (st : state) :
  reachable st ->
  (forall now, cleared (stableEmit now st) = cleared st)
  /\ (pending st = false ->
      timers st = []
      /\ forall now,
          timers (step (Notify now) st)
          = [ {| tid := next_id st; delay := STABLE_DELAY_MS;
                 cb := Attempt now |} ])
  /\ (forall tm, In tm (timers st) -> In (tid tm) (cleared (clearTimers st)))
  /\ timers (clearTimers st) = []
  /\ (forall id now src,
        step (Fire id now src) (clearTimers st) = clearTimers st).
Proof.
  intros Hr. pose proof (reachable_single_flight st Hr) as Hinv.
  split; [reflexivity|]. split.
  - intros Hp. pose proof (single_flight_idle st Hinv Hp) as Ht.
    split; [exact Ht|]. intros now. simpl. unfold onAnyChange.
    rewrite Hp. simpl. now rewrite Ht.
  - split; [intros tm; now apply clearTimers_cancels_live|].
    pose proof (clearTimers_no_timer st Hinv) as Hno.
    split; [exact Hno|]. intros id now src. now apply fire_without_timer.
Qed.

(** C6, amended, while the settle timer of the first attempt is live:
    [clearTimers] cancels it. *)
Lemma C6_timer_cancellation_witness :
  In 1%nat (cleared (clearTimers (run [Notify 0] (startup NoElement))))
  /\ timers (clearTimers (run [Notify 0] (startup NoElement))) = [].
Proof.
  assert (Hr : reachable (run [Notify 0] (startup NoElement)))
    by (exists NoElement, [Notify 0%Z]; reflexivity).
  destruct (C6_timer_cancellation _ Hr) as (_ & _ & Hc & Hn & _).
  split; [|exact Hn].
  apply (Hc {| tid := 1; delay := STABLE_DELAY_MS; cb := Attempt 0 |}).
  left. reflexivity.
Defined.

(** * Further properties *)

(** ** White space, tokens and joins *)

Section Tokens.

Import Pred.

Lemma append_nonempty_r (x y : string) : y <> "" -> (x ++ y)%string <> "".
Proof.
  intros Hy. destruct x; simpl; [exact Hy | discriminate].
Qed.

Lemma append_assoc (x y z : string) :
  ((x ++ y) ++ z)%string = (x ++ (y ++ z))%string.
Proof. induction x as [|c x IH]; simpl; [reflexivity | now rewrite IH]. Qed.

Lemma append_empty_r (x : string) : (x ++ "")%string = x.
Proof. induction x as [|c x IH]; simpl; [reflexivity | now rewrite IH]. Qed.

Lemma no_space_app (x y : string) :
  no_space (x ++ y) = (no_space x && no_space y)%bool.
Proof.
  induction x as [|c x IH]; simpl; [reflexivity|].
  now rewrite IH, andb_assoc.
Qed.

(** A run without white space is scanned into the current token. *)
Lemma split_from_run (t rest : string) :
  no_space t = true ->
  forall cur,
    Js.split_from cur false (t ++ rest) = Js.split_from (cur ++ t) false rest.
Proof.
  induction t as [|c t IH]; intros Ht cur; simpl.
  - now rewrite append_empty_r.
  - simpl in Ht. apply andb_true_iff in Ht as [Hc Ht].
    apply negb_true_iff in Hc. rewrite Hc, (IH Ht), append_assoc.
    reflexivity.
Qed.

Lemma split_from_token (t rest : string) (b : bool) :
  token t ->
  Js.split_from "" b (t ++ rest) = Js.split_from t false rest.
Proof.
  intros [Hne Ht]. destruct t as [|c t]; [contradiction|].
  simpl in Ht. apply andb_true_iff in Ht as [Hc Ht].
  apply negb_true_iff in Hc. simpl. rewrite Hc.
  now rewrite (split_from_run t rest Ht).
Qed.

(** Splitting a join of fields gives the fields back. *)
Lemma split_join (toks : list string) :
  Forall token toks -> toks <> [] ->
  forall b, Js.split_from "" b (join toks) = toks.
Proof.
  induction toks as [|t toks IH]; intros Hall Hne b; [contradiction|].
  inversion Hall as [|? ? Ht Hrest]; subst.
  destruct toks as [|t' toks].
  - cbn [join]. rewrite <- (append_empty_r t) at 1.
    now rewrite (split_from_token t "" b Ht).
  - change (join (t :: t' :: toks))
      with (t ++ String " " (join (t' :: toks)))%string.
    rewrite (split_from_token t _ b Ht).
    cbn [Js.split_from]. change (Js.is_space " ") with true. cbn iota.
    f_equal. apply IH; [assumption | discriminate].
Qed.

Lemma starts_nonspace_trim_start (s : string) :
  Js.trim_start s = "" \/ starts_nonspace (Js.trim_start s) = true.
Proof.
  induction s as [|c s IH]; simpl; [now left|].
  destruct (Js.is_space c) eqn:Hc; [exact IH|].
  right. simpl. now rewrite Hc.
Qed.

Lemma ends_nonspace_cons (c : ascii) (r : string) :
  r <> "" -> ends_nonspace (String c r) = ends_nonspace r.
Proof. destruct r; [contradiction | reflexivity]. Qed.

Lemma ends_nonspace_trim_end (s : string) :
  Js.trim_end s = "" \/ ends_nonspace (Js.trim_end s) = true.
Proof.
  induction s as [|c s IH]; simpl; [now left|].
  destruct (Js.trim_end s) as [|c' r'] eqn:E.
  - destruct (Js.is_space c) eqn:Hc; [now left|].
    right. simpl. now rewrite Hc.
  - right. destruct IH as [IH|IH]; [discriminate|].
    rewrite ends_nonspace_cons; [exact IH | discriminate].
Qed.

Lemma trim_end_starts (s : string) :
  starts_nonspace s = true ->
  starts_nonspace (Js.trim_end s) = true.
Proof.
  destruct s as [|c s]; [discriminate|]. simpl. intros Hc.
  destruct (Js.trim_end s).
  - apply negb_true_iff in Hc. rewrite Hc. simpl.
    now apply negb_true_iff.
  - exact Hc.
Qed.

Lemma starts_nonspace_nonempty (s : string) :
  starts_nonspace s = true -> s <> "".
Proof. destruct s; [discriminate | discriminate]. Qed.

(** A trimmed string is empty or has a proper first and last character. *)
Lemma trim_shape (s : string) :
  Js.trim s = ""
  \/ (starts_nonspace (Js.trim s) = true /\ ends_nonspace (Js.trim s) = true).
Proof.
  unfold Js.trim.
  destruct (starts_nonspace_trim_start s) as [E|Hs].
  - left. now rewrite E.
  - right. pose proof (trim_end_starts _ Hs) as Hs'.
    split; [exact Hs'|].
    destruct (ends_nonspace_trim_end (Js.trim_start s)) as [E|He];
      [|exact He].
    apply starts_nonspace_nonempty in Hs'. contradiction.
Qed.

Lemma trim_start_fixed (s : string) :
  starts_nonspace s = true -> Js.trim_start s = s.
Proof.
  destruct s as [|c s]; [discriminate|]. simpl. intros Hc.
  apply negb_true_iff in Hc. now rewrite Hc.
Qed.

Lemma trim_end_fixed (s : string) :
  ends_nonspace s = true -> Js.trim_end s = s.
Proof.
  induction s as [|c s IH]; [discriminate|].
  destruct s as [|c' s'].
  - simpl. intros Hc. apply negb_true_iff in Hc. now rewrite Hc.
  - intros He. rewrite ends_nonspace_cons in He by discriminate.
    change (Js.trim_end (String c (String c' s')))
      with (match Js.trim_end (String c' s') with
            | EmptyString =>
                if Js.is_space c then EmptyString else String c EmptyString
            | String x y => String c (String x y)
            end).
    rewrite (IH He). reflexivity.
Qed.

Lemma trim_fixed (s : string) :
  starts_nonspace s = true -> ends_nonspace s = true -> Js.trim s = s.
Proof.
  intros Hs He. unfold Js.trim. rewrite (trim_start_fixed s Hs).
  now apply trim_end_fixed.
Qed.

Lemma trim_idempotent (s : string) : Js.trim (Js.trim s) = Js.trim s.
Proof.
  destruct (trim_shape s) as [E|[Hs He]].
  - rewrite E. reflexivity.
  - now apply trim_fixed.
Qed.

Lemma split_from_no_space (s : string) :
  forall cur b,
    no_space cur = true ->
    Forall (fun t => no_space t = true) (Js.split_from cur b s).
Proof.
  induction s as [|c s IH]; intros cur b Hcur; simpl.
  - now constructor.
  - destruct (Js.is_space c) eqn:Hc.
    + destruct b; [|constructor; [exact Hcur|]]; now apply IH.
    + apply IH. rewrite no_space_app, Hcur. simpl. now rewrite Hc.
Qed.

Lemma split_from_nonempty_tokens (s : string) :
  forall cur b,
    (b = false -> cur = "" -> starts_nonspace s = true) ->
    ((s = "" /\ b = false) \/ ends_nonspace s = true) ->
    Forall (fun t => t <> "") (Js.split_from cur b s).
Proof.
  induction s as [|c s IH]; intros cur b Hstart Hend; simpl.
  - destruct Hend as [[_ Hb]|He]; [|discriminate].
    constructor; [|constructor]. intros E. now specialize (Hstart Hb E).
  - assert (Hrest : Js.is_space c = true -> ends_nonspace s = true).
    { intros Hc. destruct Hend as [[E _]|He]; [discriminate|].
      destruct s as [|c' s']; [simpl in He; rewrite Hc in He; discriminate|].
      now rewrite ends_nonspace_cons in He by discriminate. }
    destruct (Js.is_space c) eqn:Hc.
    + assert (Htail : Forall (fun t => t <> "") (Js.split_from "" true s)).
      { apply IH; [discriminate | right; now apply Hrest]. }
      destruct b; [exact Htail|]. constructor; [|exact Htail].
      intros E. specialize (Hstart eq_refl E). simpl in Hstart.
      rewrite Hc in Hstart. discriminate.
    + apply IH.
      * intros _ E. exfalso. revert E. apply append_nonempty_r. discriminate.
      * destruct s as [|c' s']; [left; now split|right].
        destruct Hend as [[E _]|He]; [discriminate|].
        now rewrite ends_nonspace_cons in He by discriminate.
Qed.

(** The fields of a trimmed, non-empty string are proper tokens. *)
Lemma split_trimmed_tokens (s : string) :
  starts_nonspace s = true -> ends_nonspace s = true ->
  Forall token (Js.split_ws s).
Proof.
  intros Hs He. unfold Js.split_ws.
  pose proof (split_from_no_space s "" false eq_refl) as Hn.
  pose proof (split_from_nonempty_tokens s "" false (fun _ _ => Hs)
                (or_intror He)) as Hne.
  rewrite Forall_forall in *. intros t Ht. split; auto.
Qed.

Lemma split_trim_tokens (s : string) :
  Js.trim s <> "" -> Forall token (Js.split_ws (Js.trim s)).
Proof.
  intros Hne. destruct (trim_shape s) as [E|[Hs He]]; [contradiction|].
  now apply split_trimmed_tokens.
Qed.

Lemma split_ws_nonempty (s : string) : Js.split_ws s <> [].
Proof. apply split_from_nonempty. Qed.

Lemma token_truthy (t : string) : token t -> Js.truthy (Js.Str t) = true.
Proof. intros [Hne _]. now apply truthy_str. Qed.

(** [parts[i] || d] on proper tokens is the field or the default. *)
Lemma or_index_nth (toks : list string) (i : nat) (d : string) :
  Forall token toks ->
  Js.or (Js.index toks i) (Js.Str d) = Js.Str (nth i toks d).
Proof.
  intros Hall. unfold Js.index, Js.or.
  destruct (nth_error toks i) as [t|] eqn:E.
  - rewrite Forall_forall in Hall.
    rewrite (token_truthy t (Hall t (nth_error_In _ _ E))).
    now rewrite (nth_error_nth _ _ d E).
  - simpl. apply nth_error_None in E. now rewrite nth_overflow.
Qed.

Lemma nth_token (toks : list string) (i : nat) (d : string) :
  Forall token toks -> token d -> token (nth i toks d).
Proof.
  intros Hall Hd. destruct (nth_in_or_default i toks d) as [Hin | ->];
    [|exact Hd].
  rewrite Forall_forall in Hall. now apply Hall.
Qed.

Lemma head_token (toks : list string) (d : string) :
  Forall token toks -> toks <> [] -> token (nth 0 toks d).
Proof.
  intros Hall Hne. destruct toks as [|t toks]; [contradiction|].
  now inversion Hall.
Qed.

Lemma token_starts (t rest : string) :
  token t -> starts_nonspace (t ++ rest) = true.
Proof.
  intros [Hne Ht]. destruct t as [|c t]; [contradiction|].
  simpl in *. now apply andb_true_iff in Ht as [Hc _].
Qed.

Lemma token_ends (t : string) : token t -> ends_nonspace t = true.
Proof.
  intros [Hne Ht]. induction t as [|c t IH]; [contradiction|].
  simpl in Ht. apply andb_true_iff in Ht as [Hc Ht].
  destruct t as [|c' t']; [exact Hc|].
  rewrite ends_nonspace_cons by discriminate.
  apply IH; [discriminate | exact Ht].
Qed.

Lemma ends_nonspace_app (x y : string) :
  y <> "" -> ends_nonspace (x ++ y) = ends_nonspace y.
Proof.
  intros Hy. induction x as [|c x IH]; [reflexivity|].
  change (String c x ++ y)%string with (String c (x ++ y)).
  rewrite ends_nonspace_cons; [exact IH | now apply append_nonempty_r].
Qed.

Lemma join_nonempty (toks : list string) :
  Forall token toks -> toks <> [] -> join toks <> "".
Proof.
  intros Hall Hne. destruct toks as [|t toks]; [contradiction|].
  inversion Hall as [|? ? [Ht _] _]; subst.
  destruct toks; [exact Ht|].
  change (join (t :: s :: toks)) with (t ++ String " " (join (s :: toks)))%string.
  apply append_nonempty_r. discriminate.
Qed.

Lemma join_starts (toks : list string) :
  Forall token toks -> toks <> [] -> starts_nonspace (join toks) = true.
Proof.
  intros Hall Hne. destruct toks as [|t toks]; [contradiction|].
  inversion Hall as [|? ? Ht _]; subst.
  destruct toks.
  - cbn [join]. rewrite <- (append_empty_r t). now apply token_starts.
  - change (join (t :: s :: toks))
      with (t ++ String " " (join (s :: toks)))%string.
    now apply token_starts.
Qed.

Lemma join_ends (toks : list string) :
  Forall token toks -> toks <> [] -> ends_nonspace (join toks) = true.
Proof.
  induction toks as [|t toks IH]; intros Hall Hne; [contradiction|].
  inversion Hall as [|? ? Ht Hrest]; subst.
  destruct toks as [|t' toks].
  - now apply token_ends.
  - change (join (t :: t' :: toks))
      with (t ++ String " " (join (t' :: toks)))%string.
    rewrite ends_nonspace_app by discriminate.
    rewrite ends_nonspace_cons.
    + apply IH; [assumption | discriminate].
    + apply join_nonempty; [assumption | discriminate].
Qed.

Lemma trim_join (toks : list string) :
  Forall token toks -> toks <> [] -> Js.trim (join toks) = join toks.
Proof.
  intros Hall Hne. apply trim_fixed; [now apply join_starts | now apply join_ends].
Qed.

End Tokens.

(** ** Completing and normalising position strings *)

Section Completion.

Import Pred.

(** The six fields [completeFen] puts together. *)
Lemma completeFen_join (s : string) :
  s <> "" ->
  Forall token (Js.split_ws (Js.trim s)) ->
  Engine.completeFen (Js.Str s)
  = Js.Str (join [ nth 0 (Js.split_ws (Js.trim s)) "";
                   nth 1 (Js.split_ws (Js.trim s)) "w";
                   nth 2 (Js.split_ws (Js.trim s)) "KQkq";
                   nth 3 (Js.split_ws (Js.trim s)) "-";
                   nth 4 (Js.split_ws (Js.trim s)) "0";
                   nth 5 (Js.split_ws (Js.trim s)) "1" ]).
Proof.
  intros Hne Hall. unfold Engine.completeFen.
  rewrite (truthy_str s Hne). cbn [negb Js.is_string orb].
  rewrite !(or_index_nth _ _ _ Hall). reflexivity.
Qed.

Lemma default_tokens :
  token "w" /\ token "KQkq" /\ token "-" /\ token "0" /\ token "1".
Proof. repeat split; try reflexivity; discriminate. Qed.

Lemma filled_tokens (toks : list string) :
  Forall token toks -> toks <> [] ->
  Forall token [ nth 0 toks ""; nth 1 toks "w"; nth 2 toks "KQkq";
                 nth 3 toks "-"; nth 4 toks "0"; nth 5 toks "1" ].
Proof.
  intros Hall Hne. destruct default_tokens as (Hw & Hk & Hd & H0 & H1).
  repeat constructor; try (now apply nth_token).
  - now apply head_token.
  - now apply head_token.
Qed.

Lemma trim_nonempty_source (s : string) : Js.trim s <> "" -> s <> "".
Proof. intros H E. subst. now apply H. Qed.

Lemma includes_skip_token (t x y : string) :
  no_space t = true ->
  Js.includes (String " " x) (t ++ y) = Js.includes (String " " x) y.
Proof.
  induction t as [|c t IH]; intros Ht; [reflexivity|].
  simpl in Ht. apply andb_true_iff in Ht as [Hc Ht].
  change (String c t ++ y)%string with (String c (t ++ y)).
  cbn [Js.includes String.prefix].
  destruct (ascii_dec " " c) as [E|_].
  - subst c. discriminate.
  - now apply IH.
Qed.


End Completion.



(** X2.  [completeFen] is idempotent on inputs with at least one field:
    completing a completed string changes nothing. *)
Theorem completeFen_idempotent (s : string) :
  Js.trim s <> "" ->
  Engine.completeFen (Engine.completeFen (Js.Str s))
  = Engine.completeFen (Js.Str s).
Proof.
  intros Hne. pose proof (split_trim_tokens s Hne) as Hall.
  pose proof (filled_tokens _ Hall (split_ws_nonempty _)) as Hout.
  rewrite (completeFen_join s (trim_nonempty_source s Hne) Hall).
  set (out := [ nth 0 (Js.split_ws (Js.trim s)) "";
                nth 1 (Js.split_ws (Js.trim s)) "w";
                nth 2 (Js.split_ws (Js.trim s)) "KQkq";
                nth 3 (Js.split_ws (Js.trim s)) "-";
                nth 4 (Js.split_ws (Js.trim s)) "0";
                nth 5 (Js.split_ws (Js.trim s)) "1" ]) in *.
  assert (Hne' : out <> []) by discriminate.
  assert (Hsplit : Js.split_ws (Js.trim (Pred.join out)) = out).
  { rewrite (trim_join out Hout Hne'). now apply split_join. }
  rewrite completeFen_join.
  - rewrite Hsplit. reflexivity.
  - now apply join_nonempty.
  - now rewrite Hsplit.
Qed.

(** X2 on a placement-only input. *)
Lemma completeFen_idempotent_witness :
  Engine.completeFen (Engine.completeFen (Js.Str "8/8/8/8/8/8/8/8"))
  = Engine.completeFen (Js.Str "8/8/8/8/8/8/8/8").
Proof.
  apply (completeFen_idempotent "8/8/8/8/8/8/8/8"). discriminate.
Defined.

(** X3.  A non-empty string of white space only is not refused: it is
    completed to the five defaults after an empty placement. *)
Theorem completeFen_blank (s : string) :
  s <> "" -> Js.trim s = "" ->
  Engine.completeFen (Js.Str s) = Js.Str " w KQkq - 0 1".
Proof.
  intros Hne Hblank. unfold Engine.completeFen.
  rewrite (truthy_str s Hne), Hblank. reflexivity.
Qed.

(** X3 on a blank and a tab. *)
Lemma completeFen_blank_witness :
  Engine.completeFen (Js.Str (String " " (String (ascii_of_nat 9) "")))
  = Js.Str " w KQkq - 0 1".
Proof.
  apply completeFen_blank; [discriminate | reflexivity].
Defined.

Section DomPath.

Import Pred.

Lemma push_n_repeat (k : nat) (x : string) :
  forall parts, Js.push_n k parts x = parts ++ repeat x k.
Proof.
  induction k as [|k IH]; intros parts; simpl.
  - now rewrite app_nil_r.
  - rewrite IH, <- app_assoc. reflexivity.
Qed.

(** A slot of the padded array holds the field, or the dash. *)
Lemma index_pad (toks : list string) (i : nat) :
  (i < 6)%nat ->
  Js.index (Js.pad_to 6 toks "-") i = Js.Str (nth i toks "-").
Proof.
  intros Hi. unfold Js.pad_to, Js.index. rewrite push_n_repeat.
  destruct (Nat.lt_ge_cases i (List.length toks)) as [Hlt|Hge].
  - rewrite nth_error_app1 by exact Hlt.
    destruct (nth_error toks i) as [t|] eqn:E.
    + now rewrite (nth_error_nth _ _ "-" E).
    + apply nth_error_None in E. lia.
  - rewrite nth_error_app2 by exact Hge.
    rewrite (nth_overflow toks "-" Hge).
    rewrite nth_error_repeat by lia. reflexivity.
Qed.

Lemma or_pad (toks : list string) (i : nat) (d : string) :
  (i < 6)%nat -> Forall token toks ->
  Js.or (Js.index (Js.pad_to 6 toks "-") i) (Js.Str d)
  = Js.Str (nth i toks "-").
Proof.
  intros Hi Hall. rewrite (index_pad toks i Hi). unfold Js.or.
  assert (Ht : token (nth i toks "-"))
    by (apply nth_token; [exact Hall | split; [discriminate | reflexivity]]).
  now rewrite (token_truthy _ Ht).
Qed.

Lemma getFEN_trimmed (src : source) (fen : string) :
  getFEN src = Some fen -> exists x, fen = Js.trim x.
Proof.
  unfold getFEN. destruct (read_source src) as [v|]; [|discriminate].
  destruct v; try discriminate. intros H. injection H as <-. now eexists.
Qed.

End DomPath.

(** X4.  On a position read from the page the defaults ["?"], ["0"] and
    ["1"] of [splitFen] never apply: the read is trimmed, so each of its
    fields is a proper token, and each of the six named fields is the
    read's field at that position, or ["-"] when the read has none. *)
Theorem splitFen_of_read (src : source) (f : fields) :
  splitFen (getFEN src) = Some f ->
  Forall Pred.token (Js.split_ws (raw f))
  /\ Js.trim (raw f) = raw f
  /\ placement f = Js.Str (nth 0 (Js.split_ws (raw f)) "-")
  /\ active f = Js.Str (nth 1 (Js.split_ws (raw f)) "-")
  /\ castling f = Js.Str (nth 2 (Js.split_ws (raw f)) "-")
  /\ ep f = Js.Str (nth 3 (Js.split_ws (raw f)) "-")
  /\ half f = Js.Str (nth 4 (Js.split_ws (raw f)) "-")
  /\ full f = Js.Str (nth 5 (Js.split_ws (raw f)) "-").
Proof.
  intros Hf. destruct (splitFen_some_raw _ _ Hf) as [Hget Hne].
  destruct (getFEN_trimmed src _ Hget) as [x Hx].
  assert (Hall : Forall Pred.token (Js.split_ws (raw f)))
    by (rewrite Hx; apply split_trim_tokens; now rewrite <- Hx).
  split; [exact Hall|]. split; [rewrite Hx; apply trim_idempotent|].
  rewrite Hget in Hf. unfold splitFen in Hf.
  rewrite (truthy_str _ Hne) in Hf. cbn [negb] in Hf.
  rewrite !or_pad, index_pad in Hf by (lia || exact Hall).
  injection Hf as Hf. rewrite <- Hf at 1 3 5 7 9 11. cbn. auto 7.
Qed.

(** X4 on a read of two fields with blanks around. *)
Lemma splitFen_of_read_witness :
  active empty_board_w = Js.Str "w" /\ half empty_board_w = Js.Str "-".
Proof.
  destruct (splitFen_of_read
              (AccessorReturns (Js.Str " 8/8/8/8/8/8/8/8 w ")) empty_board_w
              eq_refl) as (_ & _ & _ & Ha & _ & _ & Hh & _).
  split; [exact Ha | exact Hh].
Defined.

(** ** Direct feed: what reaches the engine *)

Section FeedCompletion.

Import Pred.

Lemma turn_token (ply : option Z) :
  token (if isWhitesTurn ply then "w" else "b").
Proof. destruct (isWhitesTurn ply); split; (discriminate || reflexivity). Qed.


(** Completing a join of proper tokens fills up the missing fields. *)
Lemma completeFen_of_join (toks : list string) :
  Forall token toks -> toks <> [] ->
  Engine.completeFen (Js.Str (join toks))
  = Js.Str (join [ nth 0 toks ""; nth 1 toks "w"; nth 2 toks "KQkq";
                   nth 3 toks "-"; nth 4 toks "0"; nth 5 toks "1" ]).
Proof.
  intros Hall Hne.
  assert (Hsplit : Js.split_ws (Js.trim (join toks)) = toks)
    by (rewrite (trim_join toks Hall Hne); now apply split_join).
  rewrite completeFen_join.
  - now rewrite Hsplit.
  - now apply join_nonempty.
  - now rewrite Hsplit.
Qed.

End FeedCompletion.



(** X6.  A pushed position of exactly two fields, the second being the
    colour, is not recognised as having a colour (the test looks for
    the colour with a blank on both sides): a second colour is
    appended, and in the position stored for the engine it takes the
    place of the castling rights. *)
Theorem pushed_fen_two_fields (tok c : string) (ply : option Z) :
  Pred.token tok -> c = "w" \/ c = "b" ->
  pushed_fen (tok ++ " " ++ c) ply
  = (tok ++ " " ++ c ++ (if isWhitesTurn ply then " w" else " b"))%string
  /\ Engine.completeFen (Js.Str (pushed_fen (tok ++ " " ++ c) ply))
     = Js.Str (tok ++ " " ++ c
               ++ (if isWhitesTurn ply then " w - 0 1" else " b - 0 1"))%string.
Proof.
  intros Ht Hc.
  assert (Hp : pushed_fen (tok ++ " " ++ c) ply
               = Pred.join [tok; c; if isWhitesTurn ply then "w" else "b"]).
  { unfold pushed_fen. destruct Ht as [_ Hn].
    rewrite !(includes_skip_token tok _ _ Hn).
    destruct Hc as [-> | ->]; cbn; rewrite append_assoc;
      now destruct (isWhitesTurn ply). }
  assert (Hall : Forall Pred.token
                   [tok; c; if isWhitesTurn ply then "w" else "b"]).
  { repeat constructor; try apply Ht; try apply turn_token;
      destruct Hc as [-> | ->]; (discriminate || reflexivity). }
  split.
  - rewrite Hp. cbn [Pred.join].
    destruct Hc as [-> | ->]; now destruct (isWhitesTurn ply).
  - rewrite Hp, (completeFen_of_join _ Hall) by discriminate.
    cbn [nth Pred.join].
    destruct Hc as [-> | ->]; now destruct (isWhitesTurn ply).
Qed.

(** X6 on ["8/8/8/8/8/8/8/8 w"] after five plies. *)
Lemma pushed_fen_two_fields_witness :
  Engine.completeFen
    (Js.Str (pushed_fen ("8/8/8/8/8/8/8/8" ++ " " ++ "w") (Some 5%Z)))
  = Js.Str "8/8/8/8/8/8/8/8 w b - 0 1".
Proof.
  refine (proj2 (pushed_fen_two_fields "8/8/8/8/8/8/8/8" "w" (Some 5%Z) _ _)).
  - split; [discriminate | reflexivity].
  - left. reflexivity.
Defined.

(** ** Change stabiliser: what is dispatched *)

Section Emissions.

Import Pred.

Lemma strict_eq_sym (v w : Js.value) : Js.strict_eq v w = Js.strict_eq w v.
Proof.
  unfold Js.strict_eq.
  destruct (Js.value_eq_dec v w), (Js.value_eq_dec w v); congruence.
Qed.

(** A step dispatches nothing and keeps the last-sent pair, or it is the
    firing of a confirm timer whose read is new with respect to that
    pair, and the read is dispatched and recorded. *)
Lemma step_emits (ev : event) (st : state) :
  (events (step ev st) = events st
   /\ lastSentPlacement (step ev st) = lastSentPlacement st
   /\ lastSentActive (step ev st) = lastSentActive st)
  \/ (exists id now src f2,
        ev = Fire id now src
        /\ splitFen (getFEN src) = Some f2
        /\ (negb (Js.strict_eq (placement f2) (lastSentPlacement st))
            || negb (Js.strict_eq (active f2) (lastSentActive st)))%bool = true
        /\ events (step ev st) = events st ++ [raw f2]
        /\ lastSentPlacement (step ev st) = placement f2
        /\ lastSentActive (step ev st) = active f2).
Proof.
  destruct ev as [now|id now src|]; simpl.
  - left. unfold onAnyChange. destruct (pending st); simpl; auto.
  - destruct (find _ (timers st)) as [tm|]; [|left; auto].
    destruct (cb tm) as [start|start f1]; simpl.
    + left. unfold attempt. destruct (splitFen (getFEN src)); simpl; auto.
    + unfold confirm. destruct (splitFen (getFEN src)) as [f2|] eqn:Hf2;
        [|left; simpl; auto].
      cbn [lastSentPlacement lastSentActive set_timers].
      destruct (negb (Js.strict_eq (placement f2) (lastSentPlacement st))
                || negb (Js.strict_eq (active f2) (lastSentActive st)))%bool
        eqn:Hnew; cbn [andb].
      * destruct (Js.strict_eq (placement f2) (placement f1)
                  && Js.strict_eq (active f2) (active f1))%bool.
        -- right. exists id, now, src, f2.
           destruct (splitFen_some_raw _ _ Hf2) as [_ Hraw].
           unfold dispatch. rewrite (truthy_str _ Hraw). simpl. auto 7.
        -- left. destruct (_ <? _)%Z; simpl; auto.
      * left. destruct (_ <? _)%Z; simpl; auto.
  - left. pose proof (clearTimers_frame st). tauto.
Qed.

Lemma startup_emits (src : source) :
  (events (startup src) = []
   /\ lastSentPlacement (startup src) = Js.Null
   /\ lastSentActive (startup src) = Js.Null)
  \/ (exists fi, splitFen (getFEN src) = Some fi
                 /\ events (startup src) = [raw fi]
                 /\ lastSentPlacement (startup src) = placement fi
                 /\ lastSentActive (startup src) = active fi).
Proof.
  unfold startup. destruct (splitFen (getFEN src)) as [fi|] eqn:Hfi;
    [right|left; simpl; auto].
  exists fi. destruct (splitFen_some_raw _ _ Hfi) as [_ Hraw].
  unfold dispatch. rewrite (truthy_str _ Hraw). simpl. auto.
Qed.

Lemma read_normalises (src : source) (f : fields) :
  splitFen (getFEN src) = Some f ->
  getFEN src = Some (raw f) /\ splitFen (Some (raw f)) = Some f.
Proof.
  intros Hf. destruct (splitFen_some_raw _ _ Hf) as [Hget _].
  split; [exact Hget | now rewrite <- Hget].
Qed.

Lemma no_repeat_snoc (es : list string) (x : string) :
  no_repeat es ->
  match rev es with
  | [] => True
  | e :: _ => same_key e x = false
  end ->
  no_repeat (es ++ [x]).
Proof.
  induction es as [|y es IH]; intros Hno Hlast; [exact I|].
  destruct es as [|z es].
  - simpl in *. auto.
  - change ((y :: z :: es) ++ [x]) with (y :: z :: (es ++ [x])).
    destruct Hno as [Hyz Hno]. split; [exact Hyz|].
    apply IH; [exact Hno|].
    change (rev (y :: z :: es)) with (rev (z :: es) ++ [y]) in Hlast.
    destruct (rev (z :: es)) as [|e r] eqn:E; [|exact Hlast].
    apply (f_equal (@List.length string)) in E.
    rewrite length_rev in E. discriminate.
Qed.

(** The two facts kept along every run. *)
Lemma emission_step (ev : event) (st : state) :
  tracks_last st /\ no_repeat (events st) ->
  tracks_last (step ev st) /\ no_repeat (events (step ev st)).
Proof.
  intros [Htr Hno].
  destruct (step_emits ev st) as [(He & Hp & Ha)|
    (id & now & src & f2 & _ & Hf2 & Hnew & He & Hp & Ha)].
  - unfold tracks_last in *. rewrite He, Hp, Ha. auto.
  - destruct (read_normalises _ _ Hf2) as [_ Hsplit].
    split.
    + unfold tracks_last. rewrite He, rev_unit. exists f2. auto.
    + rewrite He. apply no_repeat_snoc; [exact Hno|].
      unfold tracks_last in Htr.
      destruct (rev (events st)) as [|e r]; [exact I|].
      destruct Htr as (fe & Hfe & Hpe & Hae).
      unfold same_key. rewrite Hfe, Hsplit.
      rewrite <- Hpe, <- Hae.
      rewrite (strict_eq_sym (lastSentPlacement st)),
              (strict_eq_sym (lastSentActive st)).
      apply orb_true_iff in Hnew.
      destruct Hnew as [H|H]; apply negb_true_iff in H; rewrite H;
        [reflexivity | apply andb_false_r].
Qed.

Lemma emission_startup (src : source) :
  tracks_last (startup src) /\ no_repeat (events (startup src)).
Proof.
  destruct (startup_emits src) as [(He & Hp & Ha)|(fi & Hfi & He & Hp & Ha)];
    unfold tracks_last; rewrite He; simpl.
  - auto.
  - split; [|exact I]. exists fi.
    destruct (read_normalises _ _ Hfi) as [_ Hsplit]. auto.
Qed.

Lemma emission_reachable (st : state) :
  reachable st -> tracks_last st /\ no_repeat (events st).
Proof.
  intros (src & evs & ->). generalize (emission_startup src).
  generalize (startup src). induction evs as [|ev evs IH]; intros st H.
  - exact H.
  - rewrite run_cons. apply IH, emission_step, H.
Qed.

Lemma run_provenance (evs : list event) :
  forall st e,
    In e (events (run evs st)) ->
    In e (events st)
    \/ exists id now src, In (Fire id now src) evs /\ getFEN src = Some e.
Proof.
  induction evs as [|ev evs IH]; intros st e Hin; [now left|].
  rewrite run_cons in Hin. destruct (IH _ _ Hin) as [Hst|(id & now & src & Hev & Hget)].
  - destruct (step_emits ev st) as [(He & _)|
      (id & now & src & f2 & -> & Hf2 & _ & He & _)].
    + left. now rewrite <- He.
    + rewrite He in Hst. apply in_app_or in Hst as [Hold|[<-|[]]].
      * now left.
      * right. exists id, now, src. split; [now left|].
        now destruct (read_normalises _ _ Hf2).
  - right. exists id, now, src. split; [now right | exact Hget].
Qed.

End Emissions.

(** X7.  The stabiliser dispatches only what it read: every event
    dispatched up to any point is, verbatim, the result of [getFEN] at
    start-up or at the firing of one of the timers. *)
Theorem dispatched_was_read (src0 : source) (evs : list event) (e : string) :
  In e (events (run evs (startup src0))) ->
  getFEN src0 = Some e
  \/ exists id now src, In (Fire id now src) evs /\ getFEN src = Some e.
Proof.
  intros Hin. destruct (run_provenance evs _ _ Hin) as [Hst|H]; [|now right].
  left. destruct (startup_emits src0) as [(He & _)|(fi & Hfi & He & _)];
    rewrite He in Hst.
  - destruct Hst.
  - destruct Hst as [<-|[]]. now destruct (read_normalises _ _ Hfi).
Qed.

(** X7 on the success scenario: the one event is the trimmed second
    read. *)
Lemma dispatched_was_read_witness :
  getFEN NoElement = Some "8/8/8/8/8/8/8/8 w"
  \/ exists id now src,
       In (Fire id now src)
          [ Notify 0;
            Fire 1 220 (AccessorReturns (Js.Str "8/8/8/8/8/8/8/8 w"));
            Fire 2 340 (AccessorReturns (Js.Str "8/8/8/8/8/8/8/8 w ")) ]
       /\ getFEN src = Some "8/8/8/8/8/8/8/8 w".
Proof.
  apply (dispatched_was_read NoElement
           [ Notify 0;
             Fire 1 220 (AccessorReturns (Js.Str "8/8/8/8/8/8/8/8 w"));
             Fire 2 340 (AccessorReturns (Js.Str "8/8/8/8/8/8/8/8 w ")) ]
           "8/8/8/8/8/8/8/8 w").
  left. reflexivity.
Defined.

(** X8.  In every reachable state no two events dispatched one after
    the other have the same placement and the same active colour. *)
Theorem dispatched_no_repeat (st : state) :
  reachable st -> Pred.no_repeat (events st).
Proof. intros Hr. now apply emission_reachable. Qed.

(** X9.  In every reachable state the last-sent pair is the placement
    and active colour of the last event dispatched, and [null], [null]
    when none has been. *)
Theorem lastSent_tracks_events (st : state) :
  reachable st -> Pred.tracks_last st.
Proof. intros Hr. now apply emission_reachable. Qed.

(** X8 and X9 after two detection cycles that found two positions. *)
Lemma dispatched_no_repeat_witness :
  Pred.no_repeat
    (events
       (run [ Notify 0;
              Fire 1 220 (AccessorReturns (Js.Str "8/8/8/8/8/8/8/8 w"));
              Fire 2 340 (AccessorReturns (Js.Str "8/8/8/8/8/8/8/8 w"));
              Notify 400;
              Fire 3 620 (AccessorReturns (Js.Str "8/8/8/8/8/8/7p w"));
              Fire 4 740 (AccessorReturns (Js.Str "8/8/8/8/8/8/7p w")) ]
          (startup NoElement))).
Proof.
  apply dispatched_no_repeat. eexists; eexists; reflexivity.
Defined.

Lemma lastSent_tracks_events_witness :
  Pred.tracks_last
    (run [ Notify 0;
           Fire 1 220 (AccessorReturns (Js.Str "8/8/8/8/8/8/8/8 w"));
           Fire 2 340 (AccessorReturns (Js.Str "8/8/8/8/8/8/8/8 w")) ]
       (startup NoElement)).
Proof.
  apply lastSent_tracks_events. eexists; eexists; reflexivity.
Defined.

(** ** Change stabiliser: whole cycles *)

Section Cycles.

Lemma strict_eq_neq (v w : Js.value) : v <> w -> Js.strict_eq v w = false.
Proof.
  intros H. unfold Js.strict_eq. destruct (Js.value_eq_dec v w); congruence.
Qed.

(** A notification in an idle state. *)
Lemma notify_idle (st : state) (now : Z) :
  pending st = false -> timers st = [] ->
  step (Notify now) st
  = {| lastSentPlacement := lastSentPlacement st;
       lastSentActive := lastSentActive st;
       settleTimer := Some (next_id st);
       confirmTimer := confirmTimer st;
       pending := true;
       timers := [ {| tid := next_id st; delay := STABLE_DELAY_MS;
                      cb := Attempt now |} ];
       next_id := S (next_id st);
       cleared := cleared st;
       events := events st |}.
Proof.
  intros Hp Ht. simpl. unfold onAnyChange, stableEmit. rewrite Hp.
  simpl. now rewrite Ht.
Qed.

(** The firing of the only live timer. *)
Lemma fire_only (st : state) (id : nat) (d : Z) (c : callback) (now : Z)
    (src : source) :
  timers st = [ {| tid := id; delay := d; cb := c |} ] ->
  step (Fire id now src) st = run_callback c now src (set_timers [] st).
Proof.
  intros Ht. simpl. rewrite Ht. simpl. now rewrite Nat.eqb_refl.
Qed.

(** The state in which the confirm timer of a cycle fires. *)
Lemma cycle_sampled (st : state) (t0 t1 : Z) (src1 : source) (f1 : fields) :
  pending st = false -> timers st = [] ->
  splitFen (getFEN src1) = Some f1 ->
  run [Notify t0; Fire (next_id st) t1 src1] st
  = {| lastSentPlacement := lastSentPlacement st;
       lastSentActive := lastSentActive st;
       settleTimer := Some (next_id st);
       confirmTimer := Some (S (next_id st));
       pending := true;
       timers := [ {| tid := S (next_id st); delay := CONFIRM_DELAY_MS;
                      cb := Confirm t0 f1 |} ];
       next_id := S (S (next_id st));
       cleared := cleared st;
       events := events st |}.
Proof.
  intros Hp Ht Hf1. rewrite run_cons, (notify_idle st t0 Hp Ht).
  rewrite run_cons.
  erewrite fire_only by reflexivity.
  simpl. unfold attempt. rewrite Hf1. reflexivity.
Qed.

End Cycles.

(** X10.  A whole detection cycle from an idle reachable state: when
    the two reads normalise to the same placement and active colour
    and that pair is not the last-sent one, the second read is
    dispatched, exactly once, and recorded; afterwards nothing is
    pending and no timer is live.  The time that has passed plays no
    part. *)
Theorem cycle_emits (st : state) (t0 t1 t2 : Z) (src1 src2 : source)
    (f1 f2 : fields) :
  reachable st -> pending st = false ->
  splitFen (getFEN src1) = Some f1 ->
  splitFen (getFEN src2) = Some f2 ->
  placement f2 = placement f1 -> active f2 = active f1 ->
  placement f2 <> lastSentPlacement st \/ active f2 <> lastSentActive st ->
  let st' := run [ Notify t0; Fire (next_id st) t1 src1;
                   Fire (S (next_id st)) t2 src2 ] st in
  events st' = events st ++ [raw f2]
  /\ lastSentPlacement st' = placement f2
  /\ lastSentActive st' = active f2
  /\ pending st' = false
  /\ timers st' = [].
Proof.
  intros Hr Hp Hf1 Hf2 Hpl Hac Hnew st'.
  pose proof (single_flight_idle st (reachable_single_flight st Hr) Hp) as Ht.
  subst st'.
  change [Notify t0; Fire (next_id st) t1 src1; Fire (S (next_id st)) t2 src2]
    with ([Notify t0; Fire (next_id st) t1 src1]
            ++ [Fire (S (next_id st)) t2 src2]).
  rewrite run_app, (cycle_sampled st t0 t1 src1 f1 Hp Ht Hf1), run_cons.
  erewrite fire_only by reflexivity.
  cbn [run fold_left run_callback]. unfold confirm. rewrite Hf2.
  cbn [lastSentPlacement lastSentActive set_timers].
  rewrite Hpl, Hac, !strict_eq_refl. rewrite <- Hpl, <- Hac.
  assert (Hn : (negb (Js.strict_eq (placement f2) (lastSentPlacement st))
                || negb (Js.strict_eq (active f2) (lastSentActive st)))%bool
               = true).
  { destruct Hnew as [H|H]; rewrite (strict_eq_neq _ _ H); simpl;
      [reflexivity | apply orb_true_r]. }
  rewrite Hn. cbn [andb].
  destruct (splitFen_some_raw _ _ Hf2) as [_ Hraw].
  unfold dispatch. rewrite (truthy_str _ Hraw). cbn. auto.
Qed.

(** X10 from the state after a start-up on an unreadable page. *)
Lemma cycle_emits_witness :
  events (run [ Notify 0;
                Fire 1 220 (AccessorReturns (Js.Str "8/8/8/8/8/8/8/8 w"));
                Fire 2 340 (AccessorReturns (Js.Str "8/8/8/8/8/8/8/8 w")) ]
            (startup NoElement))
  = [] ++ ["8/8/8/8/8/8/8/8 w"].
Proof.
  refine (proj1 (cycle_emits (startup NoElement) 0 220 340
                   (AccessorReturns (Js.Str "8/8/8/8/8/8/8/8 w"))
                   (AccessorReturns (Js.Str "8/8/8/8/8/8/8/8 w"))
                   empty_board_w empty_board_w _ eq_refl eq_refl eq_refl
                   eq_refl eq_refl _)).
  - exists NoElement, []. reflexivity.
  - left. discriminate.
Defined.

(** X11.  A whole detection cycle whose two reads differ in placement or
    active colour, or give the last-sent pair again, dispatches nothing
    and keeps the last-sent pair; it ends with [attempt] scheduled once
    more while less than [MAX_WAIT_MS] have passed since the
    notification, and idle otherwise. *)
Theorem cycle_holds_back (st : state) (t0 t1 t2 : Z) (src1 src2 : source)
    (f1 f2 : fields) :
  reachable st -> pending st = false ->
  splitFen (getFEN src1) = Some f1 ->
  splitFen (getFEN src2) = Some f2 ->
  ((negb (Js.strict_eq (placement f2) (lastSentPlacement st))
    || negb (Js.strict_eq (active f2) (lastSentActive st)))
   && (Js.strict_eq (placement f2) (placement f1)
       && Js.strict_eq (active f2) (active f1)))%bool = false ->
  let st' := run [ Notify t0; Fire (next_id st) t1 src1;
                   Fire (S (next_id st)) t2 src2 ] st in
  events st' = events st
  /\ lastSentPlacement st' = lastSentPlacement st
  /\ lastSentActive st' = lastSentActive st
  /\ ((t2 - t0 < MAX_WAIT_MS)%Z ->
      pending st' = true
      /\ timers st' = [ {| tid := S (S (next_id st)); delay := STABLE_DELAY_MS;
                           cb := Attempt t0 |} ])
  /\ ((MAX_WAIT_MS <= t2 - t0)%Z -> pending st' = false /\ timers st' = []).
Proof.
  intros Hr Hp Hf1 Hf2 Hno st'.
  pose proof (single_flight_idle st (reachable_single_flight st Hr) Hp) as Ht.
  subst st'.
  change [Notify t0; Fire (next_id st) t1 src1; Fire (S (next_id st)) t2 src2]
    with ([Notify t0; Fire (next_id st) t1 src1]
            ++ [Fire (S (next_id st)) t2 src2]).
  rewrite run_app, (cycle_sampled st t0 t1 src1 f1 Hp Ht Hf1), run_cons.
  erewrite fire_only by reflexivity.
  cbn [run fold_left run_callback]. unfold confirm. rewrite Hf2.
  cbn [lastSentPlacement lastSentActive set_timers]. rewrite Hno.
  destruct (Z.ltb_spec (t2 - t0) MAX_WAIT_MS) as [Hlt|Hge]; cbn;
    repeat split; intros; try reflexivity; lia.
Qed.

(** X11 when the board changes between the two reads. *)
Lemma cycle_holds_back_witness :
  events (run [ Notify 0;
                Fire 1 220 (AccessorReturns (Js.Str "8/8/8/8/8/8/8/8 w"));
                Fire 2 340 (AccessorReturns (Js.Str "8/8/8/8/8/8/7p w")) ]
            (startup NoElement))
  = events (startup NoElement).
Proof.
  refine (proj1 (cycle_holds_back (startup NoElement) 0 220 340
                   (AccessorReturns (Js.Str "8/8/8/8/8/8/8/8 w"))
                   (AccessorReturns (Js.Str "8/8/8/8/8/8/7p w"))
                   empty_board_w one_pawn_w _ eq_refl eq_refl eq_refl
                   eq_refl)).
  exists NoElement, []. reflexivity.
Defined.

(** ** Change stabiliser: tearing down and staying alive *)

Section Teardown.

Lemma handle_set_idem (h : option nat) :
  handle_set h = None \/ handle_set h = h.
Proof.
  destruct h as [id|]; simpl; [|now left].
  destruct (Nat.eqb id 0); [now left | now right].
Qed.

Lemma clearTimers_handles (st : state) :
  handle_set (settleTimer (clearTimers st)) = None
  /\ handle_set (confirmTimer (clearTimers st)) = None.
Proof.
  unfold clearTimers.
  destruct (handle_set (settleTimer st)) eqn:Hs; simpl;
    destruct (handle_set (confirmTimer st)) eqn:Hc; simpl; auto.
Qed.

Lemma clearTimers_nothing (st : state) :
  handle_set (settleTimer st) = None ->
  handle_set (confirmTimer st) = None ->
  clearTimers st = st.
Proof. intros Hs Hc. unfold clearTimers. now rewrite Hs, Hc. Qed.

Lemma clearTimers_idempotent (st : state) :
  clearTimers (clearTimers st) = clearTimers st.
Proof.
  destruct (clearTimers_handles st) as [Hs Hc].
  now apply clearTimers_nothing.
Qed.

(** Without a call of [clearTimers], a pending attempt has a timer. *)
Lemma alive_step (ev : event) (st : state) :
  single_flight st ->
  (pending st = true -> timers st <> []) ->
  ev <> Teardown ->
  pending (step ev st) = true -> timers (step ev st) <> [].
Proof.
  intros [_ Hsf] Hlive Hev. destruct ev as [now|id now src|];
    [| |contradiction]; simpl.
  - unfold onAnyChange. destruct (pending st) eqn:Hp.
    + intros _. now apply Hlive.
    + intros _. simpl. now destruct (timers st).
  - destruct (timers st) as [|tm [|tm' l]] eqn:Ht; [| |contradiction].
    + simpl. rewrite Ht. exact Hlive.
    + simpl. destruct (Nat.eqb (tid tm) id); simpl;
        [|rewrite Ht; exact Hlive].
      destruct (cb tm) as [start|start f1]; simpl.
      * unfold attempt. destruct (splitFen (getFEN src)); simpl;
          [discriminate 2 | discriminate 1].
      * unfold confirm. destruct (splitFen (getFEN src)); simpl;
          [|discriminate 1].
        destruct (_ && _)%bool.
        -- unfold dispatch. destruct (negb _); simpl; discriminate 1.
        -- destruct (_ <? _)%Z; simpl; [discriminate 2 | discriminate 1].
Qed.

Lemma alive_run (evs : list event) :
  forall st,
    single_flight st ->
    (pending st = true -> timers st <> []) ->
    Forall (fun ev => ev <> Teardown) evs ->
    pending (run evs st) = true -> timers (run evs st) <> [].
Proof.
  induction evs as [|ev evs IH]; intros st Hsf Hlive Hall; [exact Hlive|].
  inversion Hall as [|? ? Hev Hrest]; subst. rewrite run_cons.
  apply IH; [now apply single_flight_step | now apply alive_step | exact Hrest].
Qed.

End Teardown.

(** X12.  [clearTimers] cancels the timers but leaves [pending] as it
    is.  Called while an attempt is pending it therefore switches the
    stabiliser off for good: whatever notifications, firings and
    further calls follow, the state stays the same and nothing is
    dispatched. *)
Theorem teardown_while_pending (st : state) (evs : list event) :
  reachable st -> pending st = true ->
  pending (clearTimers st) = true
  /\ run evs (clearTimers st) = clearTimers st.
Proof.
  intros Hr Hp.
  pose proof (clearTimers_no_timer st (reachable_single_flight st Hr)) as Hno.
  destruct (clearTimers_frame st) as (_ & _ & _ & Hpc).
  rewrite Hp in Hpc. split; [exact Hpc|].
  induction evs as [|ev evs IH]; [reflexivity|].
  rewrite run_cons.
  assert (Hstep : step ev (clearTimers st) = clearTimers st).
  { destruct ev as [now|id now src|].
    - now apply notify_pending.
    - now apply fire_without_timer.
    - apply clearTimers_idempotent. }
  now rewrite Hstep.
Qed.

(** X12 after the first notification: a later change of the board is
    never dispatched. *)
Lemma teardown_while_pending_witness :
  events (run [ Notify 500;
                Fire 1 720 (AccessorReturns (Js.Str "8/8/8/8/8/8/8/8 w"));
                Notify 900 ]
            (clearTimers (run [Notify 0] (startup NoElement))))
  = [].
Proof.
  rewrite (proj2 (teardown_while_pending (run [Notify 0] (startup NoElement))
                    [ Notify 500;
                      Fire 1 720 (AccessorReturns (Js.Str "8/8/8/8/8/8/8/8 w"));
                      Notify 900 ]
                    (ex_intro _ NoElement (ex_intro _ [Notify 0%Z] eq_refl))
                    eq_refl)).
  reflexivity.
Defined.

(** X13.  As long as [clearTimers] is not called, [pending] holds
    exactly when a timer of the attempt is live: an attempt is never
    left pending without a callback to resolve it. *)
Theorem pending_iff_timer (src : source) (evs : list event) :
  Forall (fun ev => ev <> Teardown) evs ->
  pending (run evs (startup src)) = true
  <-> exists tm, timers (run evs (startup src)) = [tm].
Proof.
  intros Hall.
  assert (Hsf : single_flight (run evs (startup src)))
    by (apply single_flight_run, single_flight_startup).
  split.
  - intros Hp.
    assert (Hne : timers (run evs (startup src)) <> []).
    { apply alive_run; try assumption.
      - apply single_flight_startup.
      - unfold startup. destruct (splitFen (getFEN src)); simpl;
          [unfold dispatch; destruct (negb _); simpl|]; discriminate. }
    destruct Hsf as [_ Hsf].
    destruct (timers (run evs (startup src))) as [|tm [|tm' l]];
      [contradiction | now exists tm | contradiction].
  - intros [tm Htm]. destruct Hsf as [_ Hsf]. rewrite Htm in Hsf. tauto.
Qed.

(** X13 between the two reads of a cycle. *)
Lemma pending_iff_timer_witness :
  exists tm,
    timers (run [ Notify 0;
                  Fire 1 220 (AccessorReturns (Js.Str "8/8/8/8/8/8/8/8 w")) ]
              (startup NoElement)) = [tm].
Proof.
  apply (pending_iff_timer NoElement
           [ Notify 0;
             Fire 1 220 (AccessorReturns (Js.Str "8/8/8/8/8/8/8/8 w")) ]).
  - repeat constructor; discriminate.
  - reflexivity.
Defined.

(** ** Engine replies *)

Section BestMove.

Import Pred.

Lemma split_char_run (t rest : string) :
  no_blank t = true ->
  forall cur,
    EngineIO.split_char " " cur (t ++ rest)
    = EngineIO.split_char " " (cur ++ t) rest.
Proof.
  induction t as [|c t IH]; intros Ht cur; simpl.
  - now rewrite append_empty_r.
  - simpl in Ht. apply andb_true_iff in Ht as [Hc Ht].
    apply negb_true_iff in Hc. rewrite Hc, (IH Ht), append_assoc.
    reflexivity.
Qed.

(** The array [data.split(' ')] for a reply with the move [mv]. *)
Lemma split_space_bestmove (mv rest : string) :
  no_blank mv = true ->
  rest = "" \/ (exists r, rest = String " " r) ->
  exists tail,
    EngineIO.split_space ("bestmove " ++ mv ++ rest) = "bestmove" :: mv :: tail.
Proof.
  intros Hmv Hrest. unfold EngineIO.split_space.
  change (EngineIO.split_char " " "" ("bestmove " ++ mv ++ rest))
    with ("bestmove" :: EngineIO.split_char " " "" (mv ++ rest)).
  rewrite (split_char_run mv rest Hmv).
  destruct Hrest as [-> | [r ->]]; simpl; eexists; reflexivity.
Qed.

Lemma onEngineMessage_bestmove (g : Engine.globals) (isOpen : bool)
    (mv rest : string) :
  no_blank mv = true -> mv <> "(none)" ->
  rest = "" \/ (exists r, rest = String " " r) ->
  EngineIO.onEngineMessage (EngineIO.EvString ("bestmove " ++ mv ++ rest))
    isOpen g
  = (EngineIO.set_bestMove (Js.Str mv) g,
     if (Js.truthy (Engine.webSocketWrapper g) && isOpen)%bool
     then [ {| EngineIO.u := Js.Str mv; EngineIO.b := 1;
               EngineIO.l := 10000; EngineIO.a := 1 |} ]
     else []).
Proof.
  intros Hmv Hne Hrest.
  destruct (split_space_bestmove mv rest Hmv Hrest) as [tail Hsplit].
  unfold EngineIO.onEngineMessage.
  change (Js.truthy (Js.Str ("bestmove " ++ mv ++ rest))) with true.
  cbn [negb Js.is_string orb].
  change (String.prefix "bestmove" ("bestmove " ++ mv ++ rest)) with true.
  cbn iota. rewrite Hsplit.
  cbn [List.length Nat.leb Js.index nth_error andb].
  rewrite strict_eq_neq by congruence. cbn [negb].
  cbn [EngineIO.set_bestMove Engine.webSocketWrapper Engine.bestMove].
  now destruct (Js.truthy (Engine.webSocketWrapper g) && isOpen)%bool.
Qed.

(** The handler ignores the event, or stores a move and possibly sends
    it. *)
Lemma onEngineMessage_cases (event : EngineIO.engine_event) (isOpen : bool)
    (g : Engine.globals) :
  EngineIO.onEngineMessage event isOpen g = (g, [])
  \/ exists s mv,
       (event = EngineIO.EvString s \/ event = EngineIO.EvObject (Js.Str s))
       /\ String.prefix "bestmove" s = true
       /\ mv <> "(none)"
       /\ EngineIO.onEngineMessage event isOpen g
          = (EngineIO.set_bestMove (Js.Str mv) g,
             if (Js.truthy (Engine.webSocketWrapper g) && isOpen)%bool
             then [ {| EngineIO.u := Js.Str mv; EngineIO.b := 1;
                       EngineIO.l := 10000; EngineIO.a := 1 |} ]
             else []).
Proof.
  unfold EngineIO.onEngineMessage.
  set (data := match event with
               | EngineIO.EvString s => Js.Str s
               | EngineIO.EvObject d => d
               end).
  assert (Hdata : forall s, data = Js.Str s ->
                    event = EngineIO.EvString s
                    \/ event = EngineIO.EvObject (Js.Str s)).
  { intros s. subst data. destruct event; intros H; [left|right]; congruence. }
  destruct (negb (Js.truthy data) || negb (Js.is_string data))%bool;
    [now left|].
  destruct data as [| | | |s|]; try (now left).
  destruct (String.prefix "bestmove" s) eqn:Hpre; [|now left].
  destruct (2 <=? List.length (EngineIO.split_space s))%nat eqn:Hlen;
    [|now left].
  destruct (Js.strict_eq (Js.index (EngineIO.split_space s) 1)
              (Js.Str "(none)")) eqn:Hnone; [now left|].
  right. apply Nat.leb_le in Hlen.
  destruct (index_defined (EngineIO.split_space s) 1) as [mv Hmv]; [lia|].
  exists s, mv. split; [now apply Hdata|]. split; [exact Hpre|].
  split.
  - intros ->. rewrite Hmv in Hnone. now rewrite strict_eq_refl in Hnone.
  - rewrite Hmv. cbn [negb andb].
    cbn [EngineIO.set_bestMove Engine.webSocketWrapper Engine.bestMove].
    now destruct (Js.truthy (Engine.webSocketWrapper g) && isOpen)%bool.
Qed.

End BestMove.

(** X14.  A reply ["bestmove <mv>"], alone or followed by a blank and
    anything (a ponder move), with [mv] free of blanks and not
    ["(none)"], stores [mv] in [bestMove]; the move is sent, once, with
    the fixed [b], [l] and [a], when a socket is known and open, and not
    sent otherwise. *)
Theorem bestmove_stored_and_sent (g : Engine.globals) (isOpen : bool)
    (mv rest : string) :
  Pred.no_blank mv = true -> mv <> "(none)" ->
  rest = "" \/ (exists r, rest = String " " r) ->
  EngineIO.onEngineMessage (EngineIO.EvString ("bestmove " ++ mv ++ rest))
    isOpen g
  = (EngineIO.set_bestMove (Js.Str mv) g,
     if (Js.truthy (Engine.webSocketWrapper g) && isOpen)%bool
     then [ {| EngineIO.u := Js.Str mv; EngineIO.b := 1;
               EngineIO.l := 10000; EngineIO.a := 1 |} ]
     else []).
Proof. apply onEngineMessage_bestmove. Qed.

(** X14 on a reply with a ponder move, the socket being open. *)
Lemma bestmove_stored_and_sent_witness :
  snd (EngineIO.onEngineMessage
         (EngineIO.EvString ("bestmove " ++ "e2e4" ++ " ponder e7e5")) true
         (EngineIO.onConstruct 7 Engine.initial))
  = [ {| EngineIO.u := Js.Str "e2e4"; EngineIO.b := 1;
         EngineIO.l := 10000; EngineIO.a := 1 |} ].
Proof.
  rewrite (bestmove_stored_and_sent (EngineIO.onConstruct 7 Engine.initial)
             true "e2e4" " ponder e7e5" eq_refl).
  - reflexivity.
  - discriminate.
  - right. eexists. reflexivity.
Defined.

(** X15.  A reply with two blanks after ["bestmove"] is taken to carry
    the empty move: [bestMove] becomes the empty string, and with a
    socket known and open a move message with an empty [u] is sent. *)
Theorem bestmove_double_blank (g : Engine.globals) (r : string) :
  Js.truthy (Engine.webSocketWrapper g) = true ->
  EngineIO.onEngineMessage (EngineIO.EvString ("bestmove  " ++ r)) true g
  = (EngineIO.set_bestMove (Js.Str "") g,
     [ {| EngineIO.u := Js.Str ""; EngineIO.b := 1;
          EngineIO.l := 10000; EngineIO.a := 1 |} ]).
Proof.
  intros Hws.
  change ("bestmove  " ++ r)%string
    with ("bestmove " ++ "" ++ String " " r)%string.
  rewrite onEngineMessage_bestmove;
    [now rewrite Hws | reflexivity | discriminate | right; now eexists].
Qed.

(** X15 on ["bestmove  e2e4"]. *)
Lemma bestmove_double_blank_witness :
  Engine.bestMove
    (fst (EngineIO.onEngineMessage (EngineIO.EvString ("bestmove  " ++ "e2e4"))
            true (EngineIO.onConstruct 7 Engine.initial)))
  = Js.Str "".
Proof.
  now rewrite (bestmove_double_blank (EngineIO.onConstruct 7 Engine.initial)
                 "e2e4" eq_refl).
Defined.

(** X16.  Whatever the engine hands over, the handler changes no module
    variable but [bestMove], and sends at most one message.  It sends
    only when the socket is known and open, and then the move sent is
    the string just stored in [bestMove], which is never ["(none)"];
    data that is not a string starting with ["bestmove"] changes
    nothing at all. *)
Theorem onEngineMessage_frame (event : EngineIO.engine_event) (isOpen : bool)
    (g : Engine.globals) :
  let g' := fst (EngineIO.onEngineMessage event isOpen g) in
  let sent := snd (EngineIO.onEngineMessage event isOpen g) in
  (Engine.chessEngine g' = Engine.chessEngine g
   /\ Engine.webSocketWrapper g' = Engine.webSocketWrapper g
   /\ Engine.currentFen g' = Engine.currentFen g
   /\ Engine.gameId g' = Engine.gameId g
   /\ Engine.isWhite g' = Engine.isWhite g
   /\ Engine.timeLimitMs g' = Engine.timeLimitMs g
   /\ Engine.autoMoveEnabled g' = Engine.autoMoveEnabled g)
  /\ (sent = []
      \/ (isOpen = true
          /\ Js.truthy (Engine.webSocketWrapper g) = true
          /\ (exists mv, Engine.bestMove g' = Js.Str mv /\ mv <> "(none)")
          /\ sent = [ {| EngineIO.u := Engine.bestMove g'; EngineIO.b := 1;
                         EngineIO.l := 10000; EngineIO.a := 1 |} ]))
  /\ ((forall s, (event = EngineIO.EvString s
                  \/ event = EngineIO.EvObject (Js.Str s)) ->
                 String.prefix "bestmove" s = false)
      -> g' = g /\ sent = []).
Proof.
  cbv zeta.
  destruct (onEngineMessage_cases event isOpen g)
    as [-> | (s & mv & Hev & Hpre & Hne & ->)].
  - cbn. auto 12.
  - cbn [fst snd]. split; [cbn; auto 12|]. split.
    + destruct (Js.truthy (Engine.webSocketWrapper g)) eqn:Hws;
        destruct isOpen; cbn [andb]; try (now left).
      right. cbn. repeat split; eauto.
    + intros H. specialize (H s Hev). congruence.
Qed.

(** X16 on an event whose data is a number. *)
Lemma onEngineMessage_frame_witness :
  fst (EngineIO.onEngineMessage (EngineIO.EvObject (Js.Num 3)) true
         Engine.initial) = Engine.initial
  /\ snd (EngineIO.onEngineMessage (EngineIO.EvObject (Js.Num 3)) true
            Engine.initial) = [].
Proof.
  apply (onEngineMessage_frame (EngineIO.EvObject (Js.Num 3)) true
           Engine.initial).
  intros s [H|H]; discriminate H.
Defined.

(** ** Socket messages *)

Section SocketMessages.

Lemma partialFen_pushed (fen : string) (ply : option Z) :
  EngineIO.partialFen fen ply = pushed_fen fen ply.
Proof.
  unfold EngineIO.partialFen, pushed_fen.
  destruct (negb _ && negb _)%bool; [|reflexivity].
  now destruct (isWhitesTurn ply).
Qed.

Lemma calculateMove_disabled (g : Engine.globals) :
  Engine.autoMoveEnabled g = false -> Engine.calculateMove g = [].
Proof. intros H. unfold Engine.calculateMove. now rewrite H. Qed.

Lemma on_gameFull_frame (msg : message) (g : Engine.globals) :
  Engine.chessEngine (on_gameFull msg g) = Engine.chessEngine g
  /\ Engine.webSocketWrapper (on_gameFull msg g) = Engine.webSocketWrapper g
  /\ Engine.currentFen (on_gameFull msg g) = Engine.currentFen g
  /\ Engine.bestMove (on_gameFull msg g) = Engine.bestMove g
  /\ Engine.timeLimitMs (on_gameFull msg g) = Engine.timeLimitMs g
  /\ Engine.autoMoveEnabled (on_gameFull msg g) = Engine.autoMoveEnabled g.
Proof.
  unfold on_gameFull.
  destruct (Js.truthy (msg_id msg)); destruct (msg_d msg) as [p|];
    try destruct (Js.truthy (d_id p)); try destruct (d_player p) as [pl|];
    try destruct (Js.truthy (color pl)); cbn; auto 7.
Qed.

Lemma completeFen_truthy (x : string) :
  x <> "" -> Js.truthy (Engine.completeFen (Js.Str x)) = true.
Proof.
  intros Hx. unfold Engine.completeFen. rewrite (truthy_str x Hx).
  cbn [negb Js.is_string orb]. apply truthy_str.
  apply append_nonempty_r. discriminate.
Qed.

(** The side test of both listeners. *)
Lemma side_test (iw : Js.value) (white : bool) :
  ((Js.truthy iw && white) || (negb (Js.truthy iw) && negb white))%bool
  = Bool.eqb (Js.truthy iw) white.
Proof. now destruct (Js.truthy iw), white. Qed.

End SocketMessages.

(** X17.  With the engine script loaded, the listener of
    [mainListener.js] does to the engine's variables, and posts to the
    engine, exactly what the listener of [interceptWebSocket] does on
    the same message. *)
Theorem listeners_agree (data : option message) (g : Engine.globals)
    (st : state) :
  fst (fst (onMessage data (Some g) st))
  = Some (fst (EngineIO.onSocketMessage data g))
  /\ snd (onMessage data (Some g) st)
     = snd (EngineIO.onSocketMessage data g).
Proof.
  unfold onMessage, EngineIO.onSocketMessage.
  destruct data as [msg|]; [|split; reflexivity].
  change (EngineIO.onGameFull msg g) with (on_gameFull msg g).
  destruct (is_kind msg "gameFull"); cbn [option_map];
    (destruct (is_kind msg "gameState" && game_over (message_status msg))%bool;
     [split; reflexivity|];
     destruct (Js.strict_eq (msg_t msg) (Js.Str "d")
               || Js.strict_eq (msg_t msg) (Js.Str "move"))%bool;
     [|split; reflexivity];
     destruct (msg_d msg) as [p|]; [|split; reflexivity];
     destruct (d_fen p); try (split; reflexivity);
     rewrite partialFen_pushed; cbn [option_map];
     match goal with
     | |- context [Engine.set_currentFen ?v ?h] =>
         set (g2 := Engine.set_currentFen v h)
     end;
     destruct (Engine.autoMoveEnabled g2) eqn:Hauto; cbn [andb];
     destruct ((Js.truthy (Engine.isWhite g2) && isWhitesTurn (d_ply p))
               || (negb (Js.truthy (Engine.isWhite g2))
                   && negb (isWhitesTurn (d_ply p))))%bool;
     cbn [fst snd]; split; try reflexivity;
     now rewrite (calculateMove_disabled g2 Hauto)).
Qed.

(** X18.  The listener posts to the engine only in one situation: the
    message carried a position string, that position was dispatched in
    the same call, automove is enabled, an engine is known and the side
    to move is the player's.  What it posts is the completion of the
    dispatched string, stored in [currentFen], and the fixed search
    command with the time limit. *)
Theorem posts_follow_dispatch (data : option message)
    (eng : option Engine.globals) (st : state) :
  snd (onMessage data eng st) <> [] ->
  exists msg p fen g',
    data = Some msg /\ msg_d msg = Some p /\ d_fen p = Js.Str fen
    /\ fst (fst (onMessage data eng st)) = Some g'
    /\ Engine.autoMoveEnabled g' = true
    /\ Js.truthy (Engine.chessEngine g') = true
    /\ Engine.currentFen g'
       = Engine.completeFen (Js.Str (pushed_fen fen (d_ply p)))
    /\ Js.truthy (Engine.isWhite g') = isWhitesTurn (d_ply p)
    /\ events (snd (fst (onMessage data eng st)))
       = events st ++ [pushed_fen fen (d_ply p)]
    /\ snd (onMessage data eng st)
       = [ ("position fen " ++ Js.to_string (Engine.currentFen g'))%string;
           ("go depth 4 movetime "
            ++ Js.to_string (Js.Num (Engine.timeLimitMs g')))%string ].
Proof.
  unfold onMessage. destruct data as [msg|]; [|simpl; congruence].
  set (eng1 := if is_kind msg "gameFull"
               then option_map (on_gameFull msg) eng else eng).
  destruct (is_kind msg "gameState" && game_over (message_status msg))%bool;
    [simpl; congruence|].
  destruct (Js.strict_eq (msg_t msg) (Js.Str "d")
            || Js.strict_eq (msg_t msg) (Js.Str "move"))%bool;
    [|simpl; congruence].
  destruct (msg_d msg) as [p|] eqn:Hd; [|simpl; congruence].
  destruct (d_fen p) as [| | | |fen|] eqn:Hfen; try (simpl; congruence).
  destruct eng1 as [g1|]; cbn [option_map fst snd]; [|congruence].
  set (g2 := Engine.set_currentFen
               (Engine.completeFen (Js.Str (pushed_fen fen (d_ply p)))) g1).
  destruct (Engine.autoMoveEnabled g2) eqn:Hauto; cbn [andb]; [|congruence].
  rewrite side_test.
  destruct (Bool.eqb (Js.truthy (Engine.isWhite g2)) (isWhitesTurn (d_ply p)))
    eqn:Hside; [|congruence].
  unfold Engine.calculateMove. rewrite Hauto. cbn [negb].
  destruct (Js.truthy (Engine.chessEngine g2)) eqn:Heng;
    cbn [negb orb]; [|congruence].
  destruct (Js.truthy (Engine.currentFen g2)) eqn:Hcur;
    cbn [negb]; [|congruence].
  intros _. exists msg, p, fen, g2.
  repeat split; try reflexivity; try assumption.
  - now apply Bool.eqb_prop.
  - unfold dispatch.
    now rewrite (truthy_str _ (pushed_fen_nonempty fen (d_ply p))).
Qed.

(** X18 on a move message when the player is black, automove is on and
    an engine is known. *)
Lemma posts_follow_dispatch_witness :
  exists msg p fen g',
    Some move_ply5 = Some msg /\ msg_d msg = Some p /\ d_fen p = Js.Str fen
    /\ fst (fst (onMessage (Some move_ply5)
                   (Some (EngineIO.ready (Js.Bool false))) init))
       = Some g'
    /\ Engine.currentFen g' = Js.Str "8/8/8/8/8/8/8/8 b KQkq - 0 1".
Proof.
  destruct (posts_follow_dispatch (Some move_ply5)
              (Some (EngineIO.ready (Js.Bool false))) init)
    as (msg & p & fen & g' & Hm & Hd & Hf & Hg & _ & _ & Hc & _);
    [discriminate|].
  exists msg, p, fen, g'. repeat split; try assumption.
  rewrite Hc. injection Hm as <-. injection Hd as <-. injection Hf as <-.
  reflexivity.
Defined.

(** X19.  While the player's colour is unknown ([isWhite] is [null],
    as at load time and after a game end), the listener takes the
    player for black: with automove on and an engine known, a position
    message that is not also a [gameFull] one has the engine asked
    exactly when black is to move by the ply. *)
Theorem unknown_colour_plays_black (msg : message) (p : payload)
    (fen : string) (g : Engine.globals) (st : state) :
  Engine.isWhite g = Js.Null ->
  Engine.autoMoveEnabled g = true ->
  Js.truthy (Engine.chessEngine g) = true ->
  is_kind msg "gameFull" = false ->
  (is_kind msg "gameState" && game_over (message_status msg))%bool = false ->
  msg_t msg = Js.Str "d" \/ msg_t msg = Js.Str "move" ->
  msg_d msg = Some p -> d_fen p = Js.Str fen ->
  snd (onMessage (Some msg) (Some g) st)
  = if isWhitesTurn (d_ply p) then []
    else [ ("position fen "
            ++ Js.to_string
                 (Engine.completeFen (Js.Str (pushed_fen fen (d_ply p)))))%string;
           ("go depth 4 movetime "
            ++ Js.to_string (Js.Num (Engine.timeLimitMs g)))%string ].
Proof.
  intros Hiw Hauto Heng Hfull Hover Ht Hd Hfen.
  unfold onMessage. rewrite Hfull, Hover, Hd, Hfen.
  assert (Hk : (Js.strict_eq (msg_t msg) (Js.Str "d")
                || Js.strict_eq (msg_t msg) (Js.Str "move"))%bool = true)
    by (destruct Ht as [-> | ->]; reflexivity).
  rewrite Hk. cbn [option_map fst snd].
  cbn [Engine.set_currentFen Engine.autoMoveEnabled Engine.isWhite].
  rewrite Hauto, Hiw. cbn [Js.truthy negb andb orb].
  destruct (isWhitesTurn (d_ply p)); cbn [negb]; [reflexivity|].
  unfold Engine.calculateMove.
  cbn [Engine.set_currentFen Engine.autoMoveEnabled Engine.chessEngine
       Engine.currentFen Engine.timeLimitMs].
  rewrite Hauto, Heng.
  rewrite (completeFen_truthy _ (pushed_fen_nonempty fen (d_ply p))).
  reflexivity.
Qed.

(** X19 on a move message after five plies. *)
Lemma unknown_colour_plays_black_witness :
  snd (onMessage (Some move_ply5) (Some (EngineIO.ready Js.Null)) init)
  = [ "position fen 8/8/8/8/8/8/8/8 b KQkq - 0 1";
      "go depth 4 movetime 1000" ].
Proof.
  refine (unknown_colour_plays_black move_ply5
            {| d_id := Js.Undefined; d_player := None; d_status := None;
               d_fen := Js.Str "8/8/8/8/8/8/8/8"; d_ply := Some 5%Z |}
            "8/8/8/8/8/8/8/8" (EngineIO.ready Js.Null) init
            eq_refl eq_refl eq_refl eq_refl eq_refl
            (or_intror eq_refl) eq_refl eq_refl).
Defined.

(** X20.  A [gameState] message with a status of 30 or more ends the
    game whatever else it carries: nothing is dispatched or posted, the
    stabiliser state is untouched, and afterwards [currentFen],
    [bestMove], [gameId] and [isWhite] are [null] (also when the same
    message, being a [gameFull] one too, has just set an identifier
    and a colour), the other engine variables being as before. *)
Theorem game_end_wins (msg : message) (eng : option Engine.globals)
    (st : state) :
  is_kind msg "gameState" = true ->
  game_over (message_status msg) = true ->
  snd (fst (onMessage (Some msg) eng st)) = st
  /\ snd (onMessage (Some msg) eng st) = []
  /\ match eng, fst (fst (onMessage (Some msg) eng st)) with
     | Some g, Some g' =>
         Engine.currentFen g' = Js.Null /\ Engine.bestMove g' = Js.Null
         /\ Engine.gameId g' = Js.Null /\ Engine.isWhite g' = Js.Null
         /\ Engine.chessEngine g' = Engine.chessEngine g
         /\ Engine.webSocketWrapper g' = Engine.webSocketWrapper g
         /\ Engine.timeLimitMs g' = Engine.timeLimitMs g
         /\ Engine.autoMoveEnabled g' = Engine.autoMoveEnabled g
     | None, None => True
     | _, _ => False
     end.
Proof.
  intros Hkind Hover. unfold onMessage. rewrite Hkind, Hover.
  cbn [andb fst snd]. split; [reflexivity|]. split; [reflexivity|].
  destruct eng as [g|]; destruct (is_kind msg "gameFull");
    cbn [option_map]; try exact I.
  - destruct (on_gameFull_frame msg g) as (H1 & H2 & _ & _ & H5 & H6).
    cbn. auto 9.
  - cbn. auto 9.
Qed.

(** X20 on a message that is a move, a game state and a game end. *)
Lemma game_end_wins_witness :
  snd (fst (onMessage (Some move_game_over) (Some Engine.initial) init)) = init
  /\ snd (onMessage (Some move_game_over) (Some Engine.initial) init) = [].
Proof.
  destruct (game_end_wins move_game_over (Some Engine.initial) init
              eq_refl eq_refl) as (H1 & H2 & _).
  split; [exact H1 | exact H2].
Defined.

(** X21.  The socket listener never touches the stabiliser: whatever
    the message, the last-sent pair, [pending], the timer variables and
    the live timers are as before, and at most one event has been
    added to those dispatched. *)
Theorem onMessage_stabiliser_frame (data : option message)
    (eng : option Engine.globals) (st : state) :
  let st' := snd (fst (onMessage data eng st)) in
  (st' = st \/ exists e, e <> "" /\ st' = dispatch e st
                         /\ events st' = events st ++ [e])
  /\ lastSentPlacement st' = lastSentPlacement st
  /\ lastSentActive st' = lastSentActive st
  /\ pending st' = pending st
  /\ timers st' = timers st
  /\ settleTimer st' = settleTimer st
  /\ confirmTimer st' = confirmTimer st
  /\ next_id st' = next_id st
  /\ cleared st' = cleared st.
Proof.
  cbv zeta.
  assert (Hd : forall e, e <> "" ->
             let s := dispatch e st in
             (s = st \/ exists e', e' <> "" /\ s = dispatch e' st
                                   /\ events s = events st ++ [e'])
             /\ lastSentPlacement s = lastSentPlacement st
             /\ lastSentActive s = lastSentActive st
             /\ pending s = pending st /\ timers s = timers st
             /\ settleTimer s = settleTimer st
             /\ confirmTimer s = confirmTimer st
             /\ next_id s = next_id st /\ cleared s = cleared st).
  { intros e He. cbv zeta. split.
    - right. exists e. split; [exact He|]. split; [reflexivity|].
      unfold dispatch. now rewrite (truthy_str e He).
    - unfold dispatch. rewrite (truthy_str e He). cbn. auto 9. }
  unfold onMessage. destruct data as [msg|]; [|cbn; auto 10].
  destruct (is_kind msg "gameState" && game_over (message_status msg))%bool;
    [cbn; auto 10|].
  destruct (Js.strict_eq (msg_t msg) (Js.Str "d")
            || Js.strict_eq (msg_t msg) (Js.Str "move"))%bool;
    [|cbn; auto 10].
  destruct (msg_d msg) as [p|]; [|cbn; auto 10].
  destruct (d_fen p) as [| | | |fen|]; try (cbn; auto 10).
  cbn [fst snd]. apply Hd, pushed_fen_nonempty.
Qed.

(** X22.  The status that ends a game is the top-level one when it is
    present and not zero, and the nested one otherwise: the game is
    over exactly when the top-level status is 30 or more, or it is
    absent or zero and the nested status is 30 or more.  A top-level
    status from 1 to 29 hides any nested status. *)
Theorem game_over_status (msg : message) :
  game_over (message_status msg) = true
  <-> (exists n, msg_status msg = Some n /\ (30 <= n)%Z)
      \/ ((msg_status msg = None \/ msg_status msg = Some 0%Z)
          /\ exists p n, msg_d msg = Some p /\ d_status p = Some n
                         /\ (30 <= n)%Z).
Proof.
  assert (Hspec : forall s, game_over s = true
                            <-> exists n, s = Some n /\ (30 <= n)%Z).
  { intros [n|]; simpl.
    - destruct (Z.eqb_spec n 0), (Z.leb_spec 30 n); simpl; split;
        try discriminate; try (intros _; now exists n);
        intros (m & Hm & Hge); injection Hm as <-; lia.
    - split; [discriminate | intros (m & Hm & _); discriminate]. }
  rewrite Hspec. unfold message_status, status_truthy. split.
  - intros (n & Hms & Hge). destruct (msg_status msg) as [m|].
    + destruct (Z.eqb_spec m 0) as [E | Hm]; cbn [negb] in Hms.
      * subst m. right. split; [now right|].
        destruct (msg_d msg) as [p|]; [|discriminate]. now exists p, n.
      * left. exists n. split; [exact Hms | exact Hge].
    + right. split; [now left|].
      destruct (msg_d msg) as [p|]; [|discriminate]. now exists p, n.
  - intros [(n & -> & Hge) | (Hs & p & n & Hd & Hds & Hge)].
    + destruct (Z.eqb_spec n 0); [lia|]. now exists n.
    + exists n. split; [|exact Hge].
      destruct Hs as [-> | ->]; cbn; now rewrite Hd.
Qed.

(** X22 on a message with a top-level status of zero and a nested one
    of 31. *)
Lemma game_over_status_witness :
  game_over
    (message_status
       {| msg_t := Js.Str "gameState"; msg_type := Js.Undefined;
          msg_id := Js.Undefined; msg_status := Some 0%Z;
          msg_d := Some {| d_id := Js.Undefined; d_player := None;
                           d_status := Some 31%Z; d_fen := Js.Undefined;
                           d_ply := None |} |}) = true.
Proof.
  apply game_over_status. right. split; [now right|].
  eexists; eexists. repeat split. lia.
Defined.
